(** * FireO: model serialization and identity engine

    A shallow embedding of [fireo/utils/utils.py] and of the [Model] class
    of [fireo/models/model.py].

    Python values are a small tagged union; a [dict] is an insertion-ordered
    association list (Python dictionaries iterate in insertion order and
    [d[k] = v] overwrites in place or appends); a raised exception is the
    [Err] branch of a result type. *)

From Stdlib Require Import String Ascii List Bool ZArith Lia DecimalString.
Import ListNotations.
Open Scope string_scope.
Open Scope list_scope.

#[local] Set Warnings "-register-all".
#[local] Unset Elimination Schemes.

(** ** Python values *)

Inductive value : Type :=
| VNone : value
| VBool : bool -> value
| VInt : Z -> value
| VStr : string -> value
| VList : list value -> value
| VDict : list (string * value) -> value
| VObj : nat -> value.          (* any other object, e.g. a nested model *)

#[local] Set Elimination Schemes.

Definition dict : Type := list (string * value).

(** [v is None] *)
Definition is_none (v : value) : bool :=
  match v with VNone => true | _ => false end.

(** Python truthiness ([if v:]). *)
Definition truthy (v : value) : bool :=
  match v with
  | VNone => false
  | VBool b => b
  | VInt z => negb (Z.eqb z 0)
  | VStr s => negb (String.eqb s "")
  | VList l => match l with [] => false | _ => true end
  | VDict d => match d with [] => false | _ => true end
  | VObj _ => true
  end.

(** ** Dictionaries *)

Section Dict.
Context {V : Type}.

(** [d.get(k)] *)
Fixpoint dict_get (k : string) (d : list (string * V)) : option V :=
  match d with
  | [] => None
  | (k', v) :: t => if String.eqb k k' then Some v else dict_get k t
  end.

(** [d[k] = v] *)
Fixpoint dict_set (k : string) (v : V) (d : list (string * V))
  : list (string * V) :=
  match d with
  | [] => [(k, v)]
  | (k', v') :: t =>
      if String.eqb k k' then (k', v) :: t else (k', v') :: dict_set k v t
  end.

(** [k in d] *)
Definition dict_mem (k : string) (d : list (string * V)) : bool :=
  match dict_get k d with Some _ => true | None => false end.
End Dict.

(** [d.update(other)] *)
Definition dict_update {V : Type} (d other : list (string * V))
  : list (string * V) :=
  fold_left (fun acc kv => dict_set (fst kv) (snd kv) acc) other d.

(** ** Exceptions *)

Inductive exn : Type :=
| TypeError : exn
| AttributeError : exn
| AbstractNotInstantiate : string -> exn     (* fireo.models.errors *)
| InvalidKey : string -> exn                 (* fireo.queries.errors *)
| FieldError : nat -> exn                    (* raised by a field descriptor *)
| ModelSerializingWrappedError : list string -> exn -> exn.
      (* the path and the [from] cause; the instance it is also given is
         left out *)

Inductive result (A : Type) : Type :=
| Ok : A -> result A
| Err : exn -> result A.
Arguments Ok {A} _.
Arguments Err {A} _.

Definition bind {A B : Type} (r : result A) (k : A -> result B) : result B :=
  match r with Ok a => k a | Err e => Err e end.

Notation "x <- r ;; k" := (bind r (fun x => k))
  (at level 61, r at next level, right associativity).

(** ** fireo/utils/utils.py *)

Module utils.

Definition slash : ascii := "/"%char.

(** [s.split('/')]: never empty, [''.split('/') == ['']]. *)
Fixpoint split (s : string) : list string :=
  match s with
  | EmptyString => [EmptyString]
  | String c t =>
      if Ascii.eqb c slash then EmptyString :: split t
      else match split t with
           | h :: r => String c h :: r
           | [] => [String c EmptyString]
           end
  end.

(** ['/'.join(l)] *)
Definition join (l : list string) : string := String.concat "/" l.

(** [l[:-1]] *)
Definition but_last {A : Type} (l : list A) : list A := removelast l.

(** [l[:-2]] *)
Definition but_last2 {A : Type} (l : list A) : list A :=
  removelast (removelast l).

Definition ref_path (key : string) : list string := split key.

Definition collection_path (key : string) : string :=
  join (but_last (split key)).

Definition get_parent (key : string) : string := collection_path key.

Definition get_parent_doc (key : string) : string :=
  join (but_last2 (split key)).

(** [key.split('/')[-1]]; a key without a [split] attribute ([None], a
    number, ...) raises [AttributeError], which is turned into [None]. *)
Definition get_id (key : value) : value :=
  match key with
  | VStr k => VStr (last (split k) EmptyString)
  | _ => VNone
  end.

(** [needle in s] on strings. *)
Fixpoint contains (needle s : string) : bool :=
  String.prefix needle s
  || match s with
     | EmptyString => false
     | String _ t => contains needle t
     end.

(** [remove_none_field]: lists are mapped, dictionaries lose the entries
    whose value is [None] and have their [dict]/[list] values cleaned,
    anything else is returned as it is. *)
Fixpoint remove_none_field (values : value) : value :=
  match values with
  | VList l => VList (map remove_none_field l)
  | VDict d =>
      VDict
        (fold_left
           (fun result kv =>
              match snd kv with
              | VNone => result
              | VDict _ | VList _ =>
                  dict_set (fst kv) (remove_none_field (snd kv)) result
              | v => dict_set (fst kv) v result
              end)
           d [])
  | _ => values
  end.

(** *** What the cleaning is meant to achieve *)

(** No dictionary at any depth below [v], through dictionaries and
    lists, has a key whose value is [None]. *)
Fixpoint no_none_field (v : value) : bool :=
  match v with
  | VList l => forallb no_none_field l
  | VDict d =>
      forallb (fun kv => negb (is_none (snd kv)) && no_none_field (snd kv))
              d
  | _ => true
  end.

(** [nodup_keys ks]: no key occurs twice. *)
Fixpoint nodup_keys (ks : list string) : bool :=
  match ks with
  | [] => true
  | k :: t => negb (existsb (String.eqb k) t) && nodup_keys t
  end.

(** A value is a Python value when each dictionary inside it has
    pairwise distinct keys. *)
Fixpoint wf_value (v : value) : bool :=
  match v with
  | VList l => forallb wf_value l
  | VDict d =>
      nodup_keys (map fst d) && forallb (fun kv => wf_value (snd kv)) d
  | _ => true
  end.

(** The cleaning in the words of its description: drop the null-valued
    keys of every mapping, keep everything else where it is. *)
Fixpoint strip_none_keys (v : value) : value :=
  match v with
  | VList l => VList (map strip_none_keys l)
  | VDict d =>
      VDict (flat_map
               (fun kv =>
                  if is_none (snd kv) then []
                  else [(fst kv, strip_none_keys (snd kv))])
               d)
  | _ => v
  end.

(** [{"a": 1, "b": None, "c": {"d": None, "e": 2}}] *)
Definition example_doc : value :=
  VDict [("a", VInt 1); ("b", VNone);
         ("c", VDict [("d", VNone); ("e", VInt 2)])].

(** [{"a": 1, "c": {"e": 2}}] *)
Definition example_doc_clean : value :=
  VDict [("a", VInt 1); ("c", VDict [("e", VInt 2)])].

(** *** The other helpers of the module *)

(** [generateKeyFromId(model, id)]: [model.collection_name + "/" + id],
    a [TypeError] unless both are strings. *)
Definition generateKeyFromId (model_collection_name id : value)
  : result string :=
  match model_collection_name, id with
  | VStr c, VStr i => Ok (c ++ "/" ++ i)%string
  | _, _ => Err TypeError
  end.

(** [isKey(str)]: ["/" in str] *)
Definition isKey (str : string) : bool := contains "/" str.

(** A segment given to [join_keys]: an [int] (of which [bool] is a
    subclass) or a string. *)
Inductive segment : Type :=
| SInt : Z -> segment
| SBool : bool -> segment
| SStr : string -> segment.

(** [str(arg)] *)
Definition str (arg : segment) : string :=
  match arg with
  | SInt z => NilZero.string_of_int (Z.to_int z)
  | SBool true => "True"
  | SBool false => "False"
  | SStr s => s
  end.

(** [join_keys(first_arg, *args)] *)
Definition join_keys (first_arg : segment) (args : list segment) : string :=
  fold_left
    (fun result_ arg =>
       match arg with
       | SInt _ | SBool _ => (result_ ++ "[" ++ str arg ++ "]")%string
       | SStr _ => (result_ ++ "." ++ str arg)%string
       end)
    args (str first_arg).

(** [get_flat_dict] on the dictionary [VDict d], the prefix being a string
    ([None] and [''] are both false in [if prefix:]); the recursion goes
    through the values that are dictionaries. *)
Fixpoint flat_value (v : value) (prefix : string) : dict :=
  match v with
  | VDict d =>
      fold_left
        (fun flat_dict kv =>
           let key := if String.eqb prefix "" then fst kv
                      else (prefix ++ "." ++ fst kv)%string in
           match snd kv with
           | VDict _ => dict_update flat_dict (flat_value (snd kv) key)
           | x => dict_set key x flat_dict
           end)
        d []
  | _ => []
  end.

(** [get_flat_dict(dict_, prefix=None)] *)
Definition get_flat_dict (dict_ : dict) (prefix : option string) : dict :=
  flat_value (VDict dict_) (match prefix with Some p => p | None => "" end).

(** [get_nested(dict, *args)]: [None] when there is no argument, when
    [dict] is false or when the first argument is false; [dict.get] exists
    on dictionaries only. *)
Fixpoint get_nested (dict_ : value) (args : list string) : result value :=
  match args with
  | [] => Ok VNone
  | element :: rest =>
      if truthy dict_ then
        if truthy (VStr element) then
          match dict_ with
          | VDict d =>
              let v := match dict_get element d with
                       | Some x => x
                       | None => VNone
                       end in
              match rest with
              | [] => Ok v
              | _ :: _ => get_nested v rest
              end
          | _ => Err AttributeError
          end
        else Ok VNone
      else Ok VNone
  end.

(** [A]..[Z] *)
Definition is_upper (c : ascii) : bool :=
  let n := nat_of_ascii c in Nat.leb 65 n && Nat.leb n 90.

(** [c.lower()] on ASCII text. *)
Definition lower_char (c : ascii) : ascii :=
  if is_upper c then ascii_of_nat (nat_of_ascii c + 32) else c.

Fixpoint lower (s : string) : string :=
  match s with
  | EmptyString => EmptyString
  | String c t => String (lower_char c) (lower t)
  end.

(** [re.sub('(?!^)([A-Z]+)', r'_\1', s)] from the second character on:
    every maximal run of capitals that the scan meets gets an underscore
    in front; [in_run] tells that the character before belongs to the run
    being copied. *)
Fixpoint underscore_runs (in_run : bool) (s : string) : string :=
  match s with
  | EmptyString => EmptyString
  | String c t =>
      if is_upper c then
        if in_run then String c (underscore_runs true t)
        else String "_" (String c (underscore_runs true t))
      else String c (underscore_runs false t)
  end.

(** [collection_name(model)] on an ASCII class name: no match can start
    at the first character, which is copied as it is. *)
Definition collection_name (model : string) : string :=
  lower (match model with
         | EmptyString => EmptyString
         | String c t => String c (underscore_runs false t)
         end).

(** Every character of the string passes the test. *)
Fixpoint string_forallb (f : ascii -> bool) (s : string) : bool :=
  match s with
  | EmptyString => true
  | String c t => f c && string_forallb f t
  end.

(** ASCII text: every character below 128. *)
Definition ascii_text (s : string) : bool :=
  string_forallb (fun c => Nat.ltb (nat_of_ascii c) 128) s.

(** [isinstance(v, dict)] *)
Definition is_dict (v : value) : bool :=
  match v with VDict _ => true | _ => false end.

End utils.

(** ** fireo/models/model.py *)

Module model.

(** The field classes the model code tells apart with [isinstance].  A
    nested model field knows its model class: [nested_model] is what the
    call [f.nested_model()] gives, [nested_from_dict] is
    [f.nested_model.from_dict]; both run the nested class's constructor
    and may raise. *)
Inductive FieldKind : Type :=
| OtherField : FieldKind
| MapField : FieldKind
| IDField : FieldKind
| NestedModelField (nested_model : result value)
                   (nested_from_dict : dict -> result value)
  : FieldKind.

(** The field descriptor capability consumed by the model:
    [get_value(val, ignore_required, ignore_default, changed_only)] and
    [field_value(val, model)] belong to the field classes and are taken
    as they come; both may raise.  [field_value] is a function of the
    stored value; the owning model it is handed is left out. *)
Record Field : Type := {
  name : string;
  db_column_name : string;
  kind : FieldKind;
  get_value : value -> bool -> bool -> bool -> result value;
  field_value : value -> result value
}.

(** [_meta]: [field_list] is the ordered dictionary of declared fields,
    listed in registry order and keyed by [name]. *)
Record Meta : Type := {
  field_list : list Field;
  id : option (string * Field);
  ignore_none_field : bool;
  abstract : bool
}.

(** A model instance: its class ([class_name], the class attribute
    [collection_name] and [_meta]), its attribute dictionary and the
    list object [_field_changed]. *)
Record Model : Type := {
  class_name : string;
  cls_collection_name : value;
  _meta : Meta;
  attrs : dict;
  _field_changed : list string
}.

Definition with_attrs (self : Model) (d : dict) : Model :=
  {| class_name := class_name self;
     cls_collection_name := cls_collection_name self;
     _meta := _meta self;
     attrs := d;
     _field_changed := _field_changed self |}.

Definition with_field_changed (self : Model) (l : list string) : Model :=
  {| class_name := class_name self;
     cls_collection_name := cls_collection_name self;
     _meta := _meta self;
     attrs := attrs self;
     _field_changed := l |}.

Definition with_meta (self : Model) (m : Meta) : Model :=
  {| class_name := class_name self;
     cls_collection_name := cls_collection_name self;
     _meta := m;
     attrs := attrs self;
     _field_changed := _field_changed self |}.

Definition with_id (m : Meta) (i : option (string * Field)) : Meta :=
  {| field_list := field_list m;
     id := i;
     ignore_none_field := ignore_none_field m;
     abstract := abstract m |}.

Definition temp_doc_id : string := "@temp_doc_id".

(** Class attributes of [Model]: [parent = ""], [collection_name] as the
    class has it, and [None] for [id], [_key], [_update_doc] and the
    rest; a declared field that was never set reads as [None] too, the
    value its class attribute is left with when the class is built. *)
Definition class_attr (self : Model) (key : string) : value :=
  if String.eqb key "parent" then VStr ""
  else if String.eqb key "collection_name" then cls_collection_name self
  else VNone.

(** [getattr(self, key)] for an ordinary attribute: the instance
    dictionary first, the class attribute otherwise.  The properties
    [_id] and [key] are the functions [_id] and [key] below. *)
Definition getattr (self : Model) (key : string) : value :=
  match dict_get key (attrs self) with
  | Some v => v
  | None => class_attr self key
  end.

(** [key in self._meta.field_list] *)
Definition in_field_list (key : string) (m : Meta) : bool :=
  existsb (fun f => String.eqb key (name f)) (field_list m).

(** [key in self._field_changed] *)
Definition in_changed (key : string) (self : Model) : bool :=
  existsb (String.eqb key) (_field_changed self).

(** [_set_orig_attr]: [object.__setattr__], no tracking. *)
Definition _set_orig_attr (self : Model) (key : string) (v : value)
  : Model :=
  with_attrs self (dict_set key v (attrs self)).

(** [Model.__setattr__] on an ordinary attribute, one that is neither a
    property of the class ([_id], [key]) nor kept by the record outside
    the attribute dictionary ([_field_changed], [_meta]): the name is
    logged when it is a declared field, then the value is stored.
    [setattr] below is the method on every name. *)
Definition __setattr__ (self : Model) (key : string) (v : value) : Model :=
  let self :=
    if in_field_list key (_meta self)
    then with_field_changed self (_field_changed self ++ [key])
    else self in
  _set_orig_attr self key v.

(** ['/'.join(l)]: [TypeError] unless every item is a string. *)
Fixpoint strings_of (l : list value) : result (list string) :=
  match l with
  | [] => Ok []
  | VStr s :: t => r <- strings_of t ;; Ok (s :: r)
  | _ :: _ => Err TypeError
  end.

Definition join_values (l : list value) : result string :=
  r <- strings_of l ;; Ok (utils.join r).

(** [k[1:] if k[0] == '/' else k]; the joined key always holds two
    separators, so [k[0]] exists. *)
Definition strip_leading (k : string) : string :=
  match k with
  | String c t => if Ascii.eqb c utils.slash then t else k
  | EmptyString => EmptyString
  end.

Definition starts_with_slash (s : string) : bool :=
  match s with
  | String c _ => Ascii.eqb c utils.slash
  | EmptyString => false
  end.

(** Path segments as keys are written: the parent does not begin with a
    separator, and under an empty parent neither is the collection name
    empty nor does it begin with one. *)
Definition plain_segments (parent collection : string) : bool :=
  negb (starts_with_slash parent)
  && (negb (String.eqb parent "")
      || (negb (String.eqb collection "")
          && negb (starts_with_slash collection))).

(** The attributes the key is computed from. *)
Definition is_key_attr (n : string) : bool :=
  existsb (String.eqb n) ["parent"; "collection_name"; "_key"].

(** The name under which the id is kept: the declared id field's, or
    ['id']. *)
Definition id_name (m : Meta) : string :=
  match id m with
  | Some (n, _) => n
  | None => "id"
  end.

(** The [_id] property, getter. *)
Definition _id (self : Model) : result value :=
  match id (_meta self) with
  | None => Ok VNone
  | Some (n, field) => get_value field (getattr self n) false false false
  end.

(** [_set_key] *)
Definition _set_key (self : Model) (doc_id : value) : result Model :=
  p <- join_values
         [getattr self "parent"; getattr self "collection_name"; doc_id] ;;
  Ok (__setattr__ self "_key" (VStr (strip_leading p))).

(** The [_id] property, setter. *)
Definition set__id (self : Model) (doc_id : value) : result Model :=
  let self := __setattr__ self (id_name (_meta self)) doc_id in
  if truthy doc_id then _set_key self doc_id else Ok self.

(** The [key] property. *)
Definition key (self : Model) : result value :=
  if truthy (getattr self "_key") then Ok (getattr self "_key")
  else
    k <- match
           (i <- _id self ;;
            join_values
              [getattr self "parent"; getattr self "collection_name"; i])
         with
         | Err TypeError =>
             join_values
               [getattr self "parent"; getattr self "collection_name";
                VStr temp_doc_id]
         | r => r
         end ;;
    Ok (VStr (strip_leading k)).

(** [to_db_dict]: the loop over [self._meta.field_list.values()]. *)
Fixpoint to_db_dict_loop (self : Model)
         (ignore_required ignore_default changed_only : bool)
         (fields : list Field) (res : dict) : result dict :=
  match fields with
  | [] => Ok res
  | field :: rest =>
      if changed_only && negb (in_changed (name field) self)
      then to_db_dict_loop self ignore_required ignore_default changed_only
                           rest res
      else
        match get_value field (getattr self (name field))
                        ignore_required ignore_default changed_only with
        | Err error =>
            Err (ModelSerializingWrappedError [name field] error)
        | Ok v =>
            if negb (is_none v) || negb (ignore_none_field (_meta self))
            then to_db_dict_loop self ignore_required ignore_default
                                 changed_only rest
                                 (dict_set (db_column_name field) v res)
            else to_db_dict_loop self ignore_required ignore_default
                                 changed_only rest res
        end
  end.

Definition to_db_dict (self : Model)
           (ignore_required ignore_default changed_only : bool)
  : result dict :=
  to_db_dict_loop self ignore_required ignore_default changed_only
                  (field_list (_meta self)) [].

(** Modelled from the spec: [Meta.get_field_by_column_name] is not part
    of the sources at hand; the registry offers the lookup
    [field by storage column name -> descriptor | null]. *)
Definition get_field_by_column_name (m : Meta) (k : string)
  : option Field :=
  find (fun f => String.eqb k (db_column_name f)) (field_list m).

(** [populate_from_doc_dict] over [doc_dict.items()]. *)
Fixpoint populate_from_doc_dict (self : Model) (doc_dict : dict)
  : result Model :=
  match doc_dict with
  | [] => Ok self
  | (k, v) :: rest =>
      match get_field_by_column_name (_meta self) k with
      | None => populate_from_doc_dict self rest
      | Some field =>
          val <- field_value field v ;;
          populate_from_doc_dict (_set_orig_attr self (name field) val) rest
      end
  end.

Definition is_map_field (f : Field) : bool :=
  match kind f with MapField => true | _ => false end.

(** [_get_fields] *)
Definition _get_fields (self : Model) (changed_only : bool) : dict :=
  fold_left
    (fun fl f =>
       let v := getattr self (name f) in
       if negb changed_only
          || in_changed (name f) self
          || (is_map_field f && negb (is_none v))
       then dict_set (name f) v fl
       else fl)
    (field_list (_meta self)) [].

(** [to_dict] *)
Definition to_dict (self : Model) : result dict :=
  model_dict <- to_db_dict self false false false ;;
  let id_ := id_name (_meta self) in
  k <- key self ;;
  let model_dict := dict_set id_ (utils.get_id k) model_dict in
  k' <- key self ;;
  Ok (dict_set "key" k' model_dict).

(** [needle in v] for a string [needle]: substring of a string, item of
    a list, key of a dictionary; anything else is not iterable. *)
Definition py_in (needle : string) (v : value) : result bool :=
  match v with
  | VStr s => Ok (utils.contains needle s)
  | VList l =>
      Ok (existsb (fun x => match x with
                            | VStr s => String.eqb needle s
                            | _ => false
                            end) l)
  | VDict d => Ok (dict_mem needle d)
  | _ => Err TypeError
  end.

(** The names the class or the record treats on their own: the
    properties [_id] and [key], the slots [_field_changed] and [_meta]. *)
Definition ordinary_attr (n : string) : bool :=
  negb (existsb (String.eqb n) ["_id"; "key"; "_field_changed"; "_meta"]).

(** The first statement of [Model.__setattr__]: a declared field's name
    goes to the change log. *)
Definition track (self : Model) (key_ : string) : Model :=
  if in_field_list key_ (_meta self)
  then with_field_changed self (_field_changed self ++ [key_])
  else self.

(** A list of strings, read as a change log. *)
Fixpoint to_log (l : list value) : option (list string) :=
  match l with
  | [] => Some []
  | VStr s :: t =>
      match to_log t with Some r => Some (s :: r) | None => None end
  | _ :: _ => None
  end.

(** [object.__setattr__] on a name other than [_id]: the read-only
    property [key] raises [AttributeError]; [_field_changed] replaces the
    log; any other name is stored in the attribute dictionary.  The
    answer is [None] where the instance would leave what the record
    describes: a change log that is not a list of strings, a [_meta] of
    the instance's own. *)
Definition object_setattr (self : Model) (key_ : string) (v : value)
  : option (result Model) :=
  if String.eqb key_ "key" then Some (Err AttributeError)
  else if String.eqb key_ "_field_changed" then
    match v with
    | VList l =>
        match to_log l with
        | Some log => Some (Ok (with_field_changed self log))
        | None => None
        end
    | _ => None
    end
  else if String.eqb key_ "_meta" then None
  else if String.eqb key_ "_id" then None
  else Some (Ok (_set_orig_attr self key_ v)).

(** The [_id] property setter as [object.__setattr__] runs it: its own
    [setattr(self, id, doc_id)] goes through [Model.__setattr__] again.
    An id attribute that is itself named [_id] would have the setter call
    itself without end; the answer is [None] there. *)
Definition _id_setter (self : Model) (doc_id : value)
  : option (result Model) :=
  let id_ := id_name (_meta self) in
  match object_setattr (track self id_) id_ doc_id with
  | Some (Ok self) =>
      Some (if truthy doc_id then _set_key self doc_id else Ok self)
  | Some (Err e) => Some (Err e)
  | None => None
  end.

(** [setattr(self, key, value)], that is [Model.__setattr__] on every
    name: the change tracking, then [object.__setattr__], which hands
    [_id] to the property setter. *)
Definition setattr (self : Model) (key_ : string) (v : value)
  : option (result Model) :=
  let self := track self key_ in
  if String.eqb key_ "_id" then _id_setter self v
  else object_setattr self key_ v.

(** The entry an assignment to [k] adds to the change log. *)
Definition declared_entry (m : Meta) (k : string) : list string :=
  if in_field_list k m then [k] else [].

(** Sequencing of steps that may raise or leave the embedding. *)
Definition and_then {A B : Type} (r : option (result A))
           (k : A -> option (result B)) : option (result B) :=
  match r with
  | Some (Ok a) => k a
  | Some (Err e) => Some (Err e)
  | None => None
  end.

(** [for k, v in kwargs.items(): setattr(self, k, v)] *)
Fixpoint setattr_each (self : Model) (kwargs : dict)
  : option (result Model) :=
  match kwargs with
  | [] => Some (Ok self)
  | (k, v) :: rest =>
      and_then (setattr self k v) (fun self => setattr_each self rest)
  end.

(** The loop of [__init__] over the declared fields: a nested model field
    the keywords leave out gets [f.nested_model()], one the keywords give
    as a dictionary gets [f.nested_model.from_dict] of it. *)
Fixpoint init_nested (self : Model) (kwargs : dict) (fields : list Field)
  : option (result Model) :=
  match fields with
  | [] => Some (Ok self)
  | f :: rest =>
      match kind f with
      | NestedModelField nested_model nested_from_dict =>
          match dict_get (name f) kwargs with
          | None =>
              match nested_model with
              | Ok fresh =>
                  and_then (setattr self (name f) fresh)
                           (fun self => init_nested self kwargs rest)
              | Err e => Some (Err e)
              end
          | Some (VDict d) =>
              match nested_from_dict d with
              | Ok nested =>
                  and_then (setattr self (name f) nested)
                           (fun self => init_nested self kwargs rest)
              | Err e => Some (Err e)
              end
          | Some _ => init_nested self kwargs rest
          end
      | _ => init_nested self kwargs rest
      end
  end.

(** [__init__] with keyword arguments: the abstract check; the fresh
    change log, whose assignment already goes through
    [Model.__setattr__] and fails on the [None] log of the class when
    [_field_changed] is itself a declared field; the keyword assignments;
    the nested model fields. *)
Definition __init__ (cname : string) (cn : value) (m : Meta)
           (kwargs : dict) : option (result Model) :=
  if abstract m then Some (Err (AbstractNotInstantiate cname))
  else if in_field_list "_field_changed" m then Some (Err AttributeError)
  else
    and_then
      (setattr_each {| class_name := cname; cls_collection_name := cn;
                       _meta := m; attrs := []; _field_changed := [] |}
                    kwargs)
      (fun self => init_nested self kwargs (field_list m)).

(** [from_dict]: [None] for [None], otherwise a fresh instance hydrated
    from the dictionary. *)
Definition from_dict (cname : string) (cn : value) (m : Meta)
           (model_dict : value) : option (result (option Model)) :=
  match model_dict with
  | VNone => Some (Ok None)
  | _ =>
      and_then
        (__init__ cname cn m [])
        (fun instance =>
           match model_dict with
           | VDict d =>
               Some (instance <- populate_from_doc_dict instance d ;;
                     Ok (Some instance))
           | _ => Some (Err AttributeError)
           end)
  end.

(** The [updated_fields] that [update] collects: the entries of
    [_get_fields()] whose name is in the change log. *)
Definition updated_fields (self : Model) : dict :=
  fold_left
    (fun updated kv =>
       if in_changed (fst kv) self
       then dict_set (fst kv) (snd kv) updated
       else updated)
    (_get_fields self false) [].

Section Update.
(** [fields.IDField()], built by the fields module. *)
Variable new_IDField : Field.

(** [update(key)]: [Ok (self, updated_fields)] stands for the call
    [collection._update] being made on [self] with the keywords
    [updated_fields]. *)
Definition update (self : Model) (key_ : value)
  : result (Model * dict) :=
  let self :=
    if truthy key_ then __setattr__ self "_update_doc" key_ else self in
  let update_doc := getattr self "_update_doc" in
  self <-
    (if negb (is_none update_doc) then
       has_temp <- py_in temp_doc_id update_doc ;;
       if negb has_temp then
         parent_doc <- match update_doc with
                       | VStr u => Ok (utils.get_parent_doc u)
                       | _ => Err AttributeError
                       end ;;
         let self := __setattr__ self "parent" (VStr parent_doc) in
         let self :=
           if in_field_list "_id" (_meta self)
           then with_field_changed self (_field_changed self ++ ["_id"])
           else self in
         self <- set__id self (utils.get_id update_doc) ;;
         i <- _id self ;;
         if is_none i && truthy (getattr self "id")
         then Ok (with_meta self
                    (with_id (_meta self) (Some ("id", new_IDField))))
         else Ok self
       else Ok self
     else
       k <- key self ;;
       has_temp <- py_in temp_doc_id k ;;
       if has_temp then Err (InvalidKey (class_name self))
       else Ok self) ;;
  Ok (self, updated_fields self).
End Update.

(** [save(merge=...)]: the keyword fields handed to [collection.create],
    [self._get_fields(changed_only=merge)]. *)
Definition save (self : Model) (merge : value) : dict :=
  _get_fields self (truthy merge).

(** [upsert()]: [save(merge=True)] *)
Definition upsert (self : Model) : dict := save self (VBool true).

(** What the constructor computes for a field on its own account: for a
    nested model field the keywords leave out, [f.nested_model()]; for
    one the keywords give as a dictionary, the model read from it;
    nothing otherwise. *)
Definition nested_default (kwargs : dict) (f : Field)
  : option (result value) :=
  match kind f with
  | NestedModelField nested_model nested_from_dict =>
      match dict_get (name f) kwargs with
      | None => Some nested_model
      | Some (VDict d) => Some (nested_from_dict d)
      | Some _ => None
      end
  | _ => None
  end.

(** The names of the nested model fields, in registry order. *)
Definition nested_field_names (m : Meta) : list string :=
  map name
      (filter (fun f => match kind f with
                        | NestedModelField _ _ => true
                        | _ => false
                        end)
              (field_list m)).

End model.

(** ** Sample models

    Concrete field descriptors and instances on which the properties below
    are exercised. *)

Module samples.
Import model.

(** A descriptor that stores values as they are. *)
Definition plain_field (k : FieldKind) (n : string) : Field :=
  {| name := n; db_column_name := n; kind := k;
     get_value := fun v _ _ _ => Ok v;
     field_value := fun v => Ok v |}.

(** A descriptor of a required field: [None] is refused on the way to
    the store. *)
Definition required_field (n : string) (code : nat) : Field :=
  {| name := n; db_column_name := n; kind := OtherField;
     get_value := fun v _ _ _ =>
                    if is_none v then Err (FieldError code) else Ok v;
     field_value := fun v => Ok v |}.

(** [class User(Model): name = TextField(); prefs = MapField()] *)
Definition user_meta : Meta :=
  {| field_list := [plain_field OtherField "name";
                    plain_field MapField "prefs"];
     id := None; ignore_none_field := true; abstract := false |}.

(** [User()] *)
Definition user : Model :=
  {| class_name := "User"; cls_collection_name := VStr "user";
     _meta := user_meta; attrs := []; _field_changed := [] |}.

(** [class Account(Model): user_id = IDField(); name = TextField()] *)
Definition account_meta : Meta :=
  {| field_list := [plain_field OtherField "name"];
     id := Some ("user_id", plain_field IDField "user_id");
     ignore_none_field := true; abstract := false |}.

Definition account (kwargs : dict) : Model :=
  fold_left (fun s kv => __setattr__ s (fst kv) (snd kv)) kwargs
    {| class_name := "Account"; cls_collection_name := VStr "user";
       _meta := account_meta; attrs := []; _field_changed := [] |}.

(** [class Strict(Model): a = TextField(required=True);
    b = TextField(required=True)] *)
Definition strict_meta : Meta :=
  {| field_list := [required_field "a" 1; required_field "b" 2];
     id := None; ignore_none_field := true; abstract := false |}.

Definition strict : Model :=
  {| class_name := "Strict"; cls_collection_name := VStr "strict";
     _meta := strict_meta; attrs := []; _field_changed := [] |}.

(** [u = User(); u.name = None], the map [prefs] loaded from storage. *)
Definition user_loaded : Model :=
  __setattr__
    (_set_orig_attr user "prefs" (VDict [("theme", VStr "dark")]))
    "name" VNone.

(** [u = User(); u.name = "x"] *)
Definition user_named : Model := __setattr__ user "name" (VStr "x").

(** [User(name="x", prefs={"theme": "dark"})] *)
Definition user_full : Model :=
  __setattr__ (__setattr__ user "name" (VStr "x"))
              "prefs" (VDict [("theme", VStr "dark")]).

(** [User(parent="/")] *)
Definition user_root_parent : Model := __setattr__ user "parent" (VStr "/").

(** [u = User(); u.id = "abc"]: the bare [id] attribute holds ["abc"]. *)
Definition user_bare_id : Model := __setattr__ user "id" (VStr "abc").


(** [class Profile(Model): nick = TextField();
    address = NestedModel(Address)], a nested [Address] being the object
    [VObj 0] when fresh and [VObj 1] when read from a dictionary. *)
Definition profile_meta : Meta :=
  {| field_list :=
       [plain_field OtherField "nick";
        plain_field (NestedModelField (Ok (VObj 0)) (fun _ => Ok (VObj 1)))
                    "address"];
     id := None; ignore_none_field := true; abstract := false |}.

(** An instance of a model class whose [collection_name] is still the
    [None] of [Model]. *)
Definition nameless : Model :=
  {| class_name := "Nameless"; cls_collection_name := VNone;
     _meta := user_meta; attrs := []; _field_changed := [] |}.

(** [class Tagged(Model): id = TextField()]: an ordinary field that is
    named [id], and no id field. *)
Definition tagged : Model :=
  {| class_name := "Tagged"; cls_collection_name := VStr "tagged";
     _meta := {| field_list := [plain_field OtherField "id"];
                 id := None; ignore_none_field := true;
                 abstract := false |};
     attrs := []; _field_changed := [] |}.

End samples.

(** * Properties *)

(** ** Values and dictionaries *)

Lemma value_ind' (P : value -> Prop) :
  P VNone ->
  (forall b, P (VBool b)) ->
  (forall z, P (VInt z)) ->
  (forall s, P (VStr s)) ->
  (forall l, Forall P l -> P (VList l)) ->
  (forall d, Forall (fun kv => P (snd kv)) d -> P (VDict d)) ->
  (forall n, P (VObj n)) ->
  forall v, P v.
Proof.
  intros HN HB HI HS HL HD HO.
  fix IH 1.
  intros [ | b | z | s | l | d | n ].
  - exact HN.
  - apply HB.
  - apply HI.
  - apply HS.
  - apply HL. induction l as [ | x l IHl ]; constructor.
    + apply IH.
    + exact IHl.
  - apply HD. induction d as [ | [k x] d IHd ]; constructor.
    + apply IH.
    + exact IHd.
  - apply HO.
Qed.

Section DictFacts.
Context {V : Type}.
Implicit Types (d : list (string * V)) (k : string) (v : V).

Lemma dict_get_set_same k v d : dict_get k (dict_set k v d) = Some v.
Proof.
  induction d as [ | [k' v'] d IH ]; simpl.
  - now rewrite String.eqb_refl.
  - destruct (String.eqb k k') eqn:E; simpl; rewrite E; auto.
Qed.

Lemma dict_get_set_other k k' v d :
  k <> k' -> dict_get k (dict_set k' v d) = dict_get k d.
Proof.
  intros Hne. induction d as [ | [k2 v2] d IH ]; simpl.
  - destruct (String.eqb_spec k k'); congruence.
  - destruct (String.eqb_spec k' k2) as [-> | Hk]; simpl.
    + destruct (String.eqb_spec k k2); congruence.
    + now rewrite IH.
Qed.

Lemma dict_set_Forall (P : string * V -> Prop) k v d :
  (forall k', P (k', v)) -> Forall P d -> Forall P (dict_set k v d).
Proof.
  intros Hv Hd. induction Hd as [ | [k' v'] d Hx Hd IH ]; simpl.
  - constructor; auto.
  - destruct (String.eqb k k'); constructor; auto.
Qed.

Lemma dict_set_fresh k v d :
  existsb (String.eqb k) (map fst d) = false ->
  dict_set k v d = d ++ [(k, v)].
Proof.
  induction d as [ | [k' v'] d IH ]; simpl; auto.
  intros H. apply orb_false_iff in H as [-> H].
  now rewrite IH.
Qed.
End DictFacts.

(** ** utils.remove_none_field *)

Section RemoveNoneField.
Import utils.

Lemma fold_left_ext {A B : Type} (f g : A -> B -> A) (l : list B) :
  (forall a b, f a b = g a b) ->
  forall a, fold_left f l a = fold_left g l a.
Proof.
  intros Hfg. induction l as [ | b l IH ]; simpl; intros a; auto.
  now rewrite Hfg, IH.
Qed.

(** The loop body written with one recursive call. *)
Lemma remove_none_field_dict (d : dict) :
  remove_none_field (VDict d) =
  VDict (fold_left
           (fun res kv =>
              if is_none (snd kv) then res
              else dict_set (fst kv) (remove_none_field (snd kv)) res)
           d []).
Proof.
  simpl. f_equal. apply fold_left_ext.
  intros res [k x]; simpl. now destruct x.
Qed.

Lemma remove_none_field_is_none (v : value) :
  is_none (remove_none_field v) = is_none v.
Proof. now destruct v. Qed.

Lemma fold_clean_no_none (d acc : dict) :
  Forall (fun kv => no_none_field (remove_none_field (snd kv)) = true) d ->
  Forall (fun kv => negb (is_none (snd kv)) && no_none_field (snd kv)
                    = true) acc ->
  Forall (fun kv => negb (is_none (snd kv)) && no_none_field (snd kv)
                    = true)
         (fold_left
            (fun res kv =>
               if is_none (snd kv) then res
               else dict_set (fst kv) (remove_none_field (snd kv)) res)
            d acc).
Proof.
  intros Hd. revert acc.
  induction Hd as [ | [k x] d Hx Hd IH ]; simpl; intros acc Hacc; auto.
  apply IH. destruct (is_none x) eqn:Ex; auto.
  apply dict_set_Forall; auto.
  intros k'; simpl in *.
  now rewrite remove_none_field_is_none, Ex, Hx.
Qed.

Lemma remove_none_field_no_none (v : value) :
  no_none_field (remove_none_field v) = true.
Proof.
  induction v as [ | b | z | s | l IH | d IH | n ] using value_ind';
    try reflexivity.
  - simpl. apply forallb_forall. intros y Hy.
    apply in_map_iff in Hy as (x & <- & Hx).
    rewrite Forall_forall in IH. now apply IH.
  - rewrite remove_none_field_dict. simpl.
    apply forallb_forall. apply Forall_forall.
    apply fold_clean_no_none; auto.
Qed.

Lemma fold_clean_fresh (d : dict) :
  Forall (fun kv => wf_value (snd kv) = true ->
                    remove_none_field (snd kv) = strip_none_keys (snd kv))
         d ->
  forallb (fun kv => wf_value (snd kv)) d = true ->
  nodup_keys (map fst d) = true ->
  forall acc : dict,
    (forall k, In k (map fst d) ->
               existsb (String.eqb k) (map fst acc) = false) ->
    fold_left
      (fun res kv =>
         if is_none (snd kv) then res
         else dict_set (fst kv) (remove_none_field (snd kv)) res)
      d acc
    = acc ++ flat_map
               (fun kv =>
                  if is_none (snd kv) then []
                  else [(fst kv, strip_none_keys (snd kv))])
               d.
Proof.
  induction 1 as [ | [k x] d Hx Hd IH ]; simpl; intros Hwf Hnd acc Hacc.
  - now rewrite app_nil_r.
  - apply andb_true_iff in Hwf as [Hwx Hwf].
    apply andb_true_iff in Hnd as [Hk Hnd].
    apply negb_true_iff in Hk.
    destruct (is_none x) eqn:Ex.
    + apply IH; auto.
    + rewrite dict_set_fresh by auto.
      rewrite IH; auto.
      * rewrite <- app_assoc. simpl in *. now rewrite (Hx Hwx).
      * intros k' Hk'. rewrite map_app, existsb_app. simpl.
        rewrite (Hacc k') by auto. simpl. rewrite orb_false_r.
        destruct (String.eqb_spec k' k) as [-> | ]; auto.
        assert (existsb (String.eqb k) (map fst d) = true); [ | congruence].
        apply existsb_exists. exists k. split; auto.
        apply String.eqb_refl.
Qed.

Lemma remove_none_field_strip (v : value) :
  wf_value v = true -> remove_none_field v = strip_none_keys v.
Proof.
  induction v as [ | b | z | s | l IH | d IH | n ] using value_ind';
    try reflexivity.
  - simpl. intros Hwf. f_equal. apply map_ext_in. intros x Hx.
    rewrite Forall_forall in IH. apply IH; auto.
    rewrite forallb_forall in Hwf. now apply Hwf.
  - intros Hwf. rewrite remove_none_field_dict.
    simpl in Hwf. apply andb_true_iff in Hwf as [Hnd Hwf].
    simpl. f_equal. now rewrite fold_clean_fresh.
Qed.

(** C9. [remove_none_field] leaves no null-valued key in any mapping at
    any depth below its argument, through dictionaries and lists; on a
    value whose dictionaries have distinct keys it is exactly the removal
    of those keys, every other entry and item staying in place; and
    [{"a": 1, "b": None, "c": {"d": None, "e": 2}}] becomes
    [{"a": 1, "c": {"e": 2}}]. *)
Theorem remove_none_field_correct (v : value) (Hwf : wf_value v = true) :
  no_none_field (remove_none_field v) = true
  /\ remove_none_field v = strip_none_keys v
  /\ remove_none_field example_doc = example_doc_clean.
Proof.
  split; [ | split ].
  - apply remove_none_field_no_none.
  - now apply remove_none_field_strip.
  - reflexivity.
Qed.

Lemma remove_none_field_correct_witness :
  wf_value example_doc = true
  /\ no_none_field (remove_none_field example_doc) = true
  /\ remove_none_field example_doc = strip_none_keys example_doc
  /\ remove_none_field example_doc = example_doc_clean.
Proof.
  split; [ reflexivity | ].
  apply (remove_none_field_correct example_doc). reflexivity.
Defined.

End RemoveNoneField.

(** ** Strings and keys *)

Section StringFacts.
Import utils model.
Local Open Scope string_scope.

Lemma contains_prefix (n s : string) :
  String.prefix n s = true -> contains n s = true.
Proof. destruct s; cbn [contains]; intros ->; reflexivity. Qed.

Lemma split_not_nil (s : string) : split s <> [].
Proof.
  induction s as [ | ch s IH ]; simpl; [ discriminate | ].
  destruct (Ascii.eqb ch slash); [ discriminate | ].
  destruct (split s); discriminate.
Qed.

Lemma split_app (a b : string) :
  split (a ++ String slash b) = (split a ++ split b)%list.
Proof.
  induction a as [ | ch a IH ]; simpl.
  - reflexivity.
  - rewrite IH. destruct (Ascii.eqb ch slash); [ reflexivity | ].
    pose proof (split_not_nil a) as Hne.
    destruct (split a); [ congruence | reflexivity ].
Qed.

Lemma last_app_nonempty {A : Type} (l1 l2 : list A) (d : A) :
  l2 <> [] -> last (l1 ++ l2)%list d = last l2 d.
Proof.
  intros Hne. induction l1 as [ | x l1 IH ]; simpl; auto.
  destruct (l1 ++ l2)%list eqn:E; auto.
  apply app_eq_nil in E as [_ E]. congruence.
Qed.

(** The last segment of a key that ends in [/] and a separator-free
    segment is that segment. *)
Lemma get_id_app (x t : string) :
  split t = [t] -> get_id (VStr (x ++ String slash t)) = VStr t.
Proof.
  intros Ht. simpl. rewrite split_app, last_app_nonempty.
  - now rewrite Ht.
  - apply split_not_nil.
Qed.

Lemma append_assoc (a b c : string) : (a ++ b) ++ c = a ++ b ++ c.
Proof. induction a as [ | ch a IH ]; simpl; congruence. Qed.

Lemma strip_leading_keeps_last (p c t : string) :
  exists x,
    strip_leading (p ++ String slash (c ++ String slash t))
    = x ++ String slash t.
Proof.
  destruct p as [ | ch p ]; simpl.
  - now exists c.
  - destruct (Ascii.eqb ch slash).
    + exists (p ++ String slash c).
      rewrite append_assoc. reflexivity.
    + exists (String ch p ++ String slash c).
      simpl. rewrite append_assoc. reflexivity.
Qed.

Lemma strip_leading_plain (p c i : string) :
  plain_segments p c = true ->
  strip_leading (p ++ String slash (c ++ String slash i))
  = (if String.eqb p "" then c ++ String slash i
     else p ++ String slash (c ++ String slash i))
  /\ starts_with_slash
       (strip_leading (p ++ String slash (c ++ String slash i))) = false.
Proof.
  unfold plain_segments. intros H.
  apply andb_true_iff in H as [Hp H].
  destruct p as [ | ch p ]; simpl in *.
  - split; [ reflexivity | ].
    destruct c as [ | ch c ]; simpl in *; [ discriminate | ].
    now apply negb_true_iff in H.
  - apply negb_true_iff in Hp. rewrite Hp. simpl. now rewrite Hp.
Qed.

(** What [key] returns while no key has been fixed. *)
Lemma key_unfixed (self : Model) (p c : string) :
  truthy (getattr self "_key") = false ->
  getattr self "parent" = VStr p ->
  getattr self "collection_name" = VStr c ->
  key self =
  match _id self with
  | Ok (VStr i) =>
      Ok (VStr (strip_leading (p ++ String slash (c ++ String slash i))))
  | Ok _ | Err TypeError =>
      Ok (VStr (strip_leading
                  (p ++ String slash (c ++ String slash temp_doc_id))))
  | Err e => Err e
  end.
Proof.
  intros Hk Hp Hc. unfold key. rewrite Hk, Hp, Hc.
  destruct (_id self) as [ [ | | | | | | ] | [ | | | | | ] ]; reflexivity.
Qed.

End StringFacts.

(** ** Attributes *)

Section AttributeFacts.
Import utils model.

Lemma getattr_set_orig_attr (self : Model) (n m : string) (v : value) :
  getattr (_set_orig_attr self n v) m
  = if String.eqb m n then v else getattr self m.
Proof.
  unfold getattr, _set_orig_attr, class_attr; simpl.
  destruct (String.eqb_spec m n) as [-> | Hne].
  - now rewrite dict_get_set_same.
  - now rewrite dict_get_set_other.
Qed.

Lemma getattr_setattr (self : Model) (n m : string) (v : value) :
  getattr (__setattr__ self n v) m
  = if String.eqb m n then v else getattr self m.
Proof.
  unfold __setattr__. rewrite getattr_set_orig_attr.
  destruct (in_field_list n (_meta self)); reflexivity.
Qed.

Lemma field_changed_setattr (self : Model) (n : string) (v : value) :
  _field_changed (__setattr__ self n v)
  = if in_field_list n (_meta self)
    then _field_changed self ++ [n]
    else _field_changed self.
Proof.
  unfold __setattr__. destruct (in_field_list n (_meta self)); reflexivity.
Qed.

Lemma is_key_attr_false (n : string) :
  is_key_attr n = false ->
  String.eqb "parent" n = false
  /\ String.eqb "collection_name" n = false
  /\ String.eqb "_key" n = false.
Proof.
  unfold is_key_attr; simpl. intros H.
  apply orb_false_iff in H as [H1 H].
  apply orb_false_iff in H as [H2 H].
  apply orb_false_iff in H as [H3 _].
  rewrite String.eqb_sym in H1, H2, H3. auto.
Qed.

End AttributeFacts.

(** ** The identity resolver: [_id], [key], [_set_key] *)

Section Identity.
Import utils model samples.
Local Open Scope string_scope.

Lemma key_fixed (self : Model) :
  truthy (getattr self "_key") = true -> key self = Ok (getattr self "_key").
Proof. unfold key. now intros ->. Qed.

Lemma truthy_ends_with (x t : string) :
  truthy (VStr (x ++ String slash t)) = true.
Proof. now destruct x. Qed.

(** C4, as the code has it.  With no key fixed and string-valued parent
    and collection name, [key] is [parent/collection/id] with one leading
    separator removed, the placeholder standing for an unresolved id; an
    empty parent is elided that way, and with plain segments the result
    is the joined path itself and does not start with a separator.  The
    two keys of the description come out as stated. *)
Theorem key_of_parent_collection_id (self : Model) (p c : string)
        (Hkey : truthy (getattr self "_key") = false)
        (Hp : getattr self "parent" = VStr p)
        (Hc : getattr self "collection_name" = VStr c) :
  (forall i, _id self = Ok (VStr i) ->
     key self = Ok (VStr (strip_leading (p ++ "/" ++ c ++ "/" ++ i))))
  /\ (_id self = Ok VNone ->
      key self
      = Ok (VStr (strip_leading (p ++ "/" ++ c ++ "/" ++ temp_doc_id))))
  /\ (forall i, strip_leading ("" ++ "/" ++ c ++ "/" ++ i) = c ++ "/" ++ i)
  /\ (forall i, plain_segments p c = true ->
        strip_leading (p ++ "/" ++ c ++ "/" ++ i)
        = (if String.eqb p "" then c ++ "/" ++ i
           else p ++ "/" ++ c ++ "/" ++ i)
        /\ starts_with_slash (strip_leading (p ++ "/" ++ c ++ "/" ++ i))
           = false)
  /\ key user = Ok (VStr "user/@temp_doc_id")
  /\ key (account [("parent", VStr "org/acme"); ("user_id", VStr "u1")])
     = Ok (VStr "org/acme/user/u1").
Proof.
  pose proof (key_unfixed self p c Hkey Hp Hc) as K.
  split; [ | split; [ | split; [ | split; [ | split ] ] ] ].
  - intros i Hi. now rewrite K, Hi.
  - intros Hi. now rewrite K, Hi.
  - reflexivity.
  - intros i Hpc. now apply (strip_leading_plain p c i).
  - reflexivity.
  - reflexivity.
Qed.

Lemma key_of_parent_collection_id_witness :
  truthy (getattr user "_key") = false
  /\ getattr user "parent" = VStr ""
  /\ getattr user "collection_name" = VStr "user"
  /\ key user = Ok (VStr "user/@temp_doc_id").
Proof.
  split; [ reflexivity | ].
  split; [ reflexivity | ].
  split; [ reflexivity | ].
  apply (key_of_parent_collection_id user "" "user"); reflexivity.
Defined.

(** C4, as stated, fails: under the parent ["/"] the key of a [User]
    with no fixed key and no id is ["/user/@temp_doc_id"], which starts
    with a separator. *)
Lemma key_leading_separator :
  truthy (getattr user_root_parent "_key") = false
  /\ getattr user_root_parent "parent" = VStr "/"
  /\ key user_root_parent = Ok (VStr "/user/@temp_doc_id")
  /\ starts_with_slash "/user/@temp_doc_id" = true.
Proof. repeat split. Qed.

Lemma set_key_string (self : Model) (d p c : string) :
  getattr self "parent" = VStr p ->
  getattr self "collection_name" = VStr c ->
  _set_key self (VStr d)
  = Ok (__setattr__ self "_key"
          (VStr (strip_leading (p ++ "/" ++ c ++ "/" ++ d)))).
Proof. intros Hp Hc. unfold _set_key. now rewrite Hp, Hc. Qed.

(** C3, as the code has it.  The getter goes through the declared id
    field's descriptor and is [None] when no id field is declared.  The
    setter writes the attribute named by the declared id field, or [id]
    when there is none; given an empty id it does nothing else; given a
    non-empty string id it fixes the key at once to
    [parent/collection/id], one leading separator removed.  The setter
    parts are for an id attribute that is an ordinary attribute and none
    of [parent], [collection_name], [_key], and the key for string parent
    and collection name. *)
Theorem id_getter_setter (self : Model) :
  _id self
  = match id (_meta self) with
    | Some (n, field) => get_value field (getattr self n) false false false
    | None => Ok VNone
    end
  /\ (forall doc_id self',
        ordinary_attr (id_name (_meta self)) = true ->
        is_key_attr (id_name (_meta self)) = false ->
        set__id self doc_id = Ok self' ->
        getattr self' (id_name (_meta self)) = doc_id)
  /\ (forall doc_id,
        truthy doc_id = false ->
        set__id self doc_id
        = Ok (__setattr__ self (id_name (_meta self)) doc_id))
  /\ (forall d p c,
        d <> "" ->
        getattr self "parent" = VStr p ->
        getattr self "collection_name" = VStr c ->
        ordinary_attr (id_name (_meta self)) = true ->
        is_key_attr (id_name (_meta self)) = false ->
        exists self',
          set__id self (VStr d) = Ok self'
          /\ key self'
             = Ok (VStr (strip_leading (p ++ "/" ++ c ++ "/" ++ d)))).
Proof.
  split; [ reflexivity | ].
  split; [ | split ].
  - intros doc_id self' _ Hn H.
    destruct (is_key_attr_false _ Hn) as (_ & _ & Nk).
    unfold set__id in H.
    assert (G : getattr (__setattr__ self (id_name (_meta self)) doc_id)
                        (id_name (_meta self)) = doc_id)
      by (now rewrite getattr_setattr, String.eqb_refl).
    destruct (truthy doc_id).
    + unfold _set_key in H.
      destruct (join_values _) as [ k | e ]; [ | discriminate ].
      cbn [bind] in H. injection H as <-.
      rewrite getattr_setattr.
      rewrite String.eqb_sym, Nk. exact G.
    + now injection H as <-.
  - intros doc_id T. unfold set__id. now rewrite T.
  - intros d p c Hd Hp Hc _ Hn.
    destruct (is_key_attr_false _ Hn) as (Np & Nc & Nk).
    set (s1 := __setattr__ self (id_name (_meta self)) (VStr d)).
    assert (T : truthy (VStr d) = true).
    { unfold truthy. destruct (String.eqb_spec d "");
        [ contradiction | reflexivity ]. }
    assert (E : set__id self (VStr d)
                = Ok (__setattr__ s1 "_key"
                        (VStr (strip_leading (p ++ "/" ++ c ++ "/" ++ d))))).
    { unfold set__id. rewrite T. apply set_key_string; unfold s1;
        rewrite getattr_setattr; [ now rewrite Np | now rewrite Nc ]. }
    destruct (strip_leading_keeps_last p c d) as [x Hx].
    change (p ++ String slash (c ++ String slash d))
      with (p ++ "/" ++ c ++ "/" ++ d) in Hx.
    eexists. split; [ exact E | ].
    rewrite key_fixed; rewrite getattr_setattr, String.eqb_refl;
      [ reflexivity | ].
    rewrite Hx. apply truthy_ends_with.
Qed.

Lemma id_getter_setter_witness :
  "u1" <> ""
  /\ ordinary_attr (id_name (_meta user)) = true
  /\ is_key_attr (id_name (_meta user)) = false
  /\ exists self',
      set__id user (VStr "u1") = Ok self'
      /\ key self' = Ok (VStr "user/u1").
Proof.
  split; [ discriminate | ].
  split; [ reflexivity | ].
  split; [ reflexivity | ].
  destruct (id_getter_setter user) as (_ & _ & _ & F).
  destruct (F "u1" "" "user") as (s & E & K);
    try reflexivity; try discriminate.
  exists s. split; [ exact E | exact K ].
Defined.

(** C3, as stated, fails: a [User] declares no id field and holds
    ["abc"] in its bare [id] attribute, yet the getter answers [None]. *)
Lemma id_getter_no_fallback :
  id (_meta user_bare_id) = None
  /\ getattr user_bare_id "id" = VStr "abc"
  /\ _id user_bare_id = Ok VNone
  /\ _id user_bare_id <> Ok (getattr user_bare_id "id").
Proof. split; [ | split; [ | split ] ]; try reflexivity. discriminate. Qed.

End Identity.

(** ** The public dictionary: [to_dict] *)

Section ToDict.
Import utils model samples.
Local Open Scope string_scope.

Lemma prefix_refl (n : string) : String.prefix n n = true.
Proof.
  induction n as [ | a n IH ]; simpl; auto.
  destruct (ascii_dec a a); [ exact IH | congruence ].
Qed.

Lemma contains_last_segment (n x : string) :
  contains n (x ++ String slash n) = true.
Proof.
  induction x as [ | ch x IH ]; cbn [append contains].
  - rewrite (contains_prefix n n (prefix_refl n)). apply orb_true_r.
  - rewrite IH. apply orb_true_r.
Qed.

(** C10.  An instance with no fixed key and an unresolved id, whose
    storage dictionary can be built: [to_dict] answers a dictionary that
    holds the literal placeholder under the id name and, under [key], the
    key that contains the placeholder.  The id name is not [key] itself,
    the slot written last. *)
Theorem to_dict_unresolved_id (self : Model) (p c : string) (md0 : dict)
        (Hdb : to_db_dict self false false false = Ok md0)
        (Hkey : truthy (getattr self "_key") = false)
        (Hp : getattr self "parent" = VStr p)
        (Hc : getattr self "collection_name" = VStr c)
        (Hid : _id self = Ok VNone)
        (Hn : id_name (_meta self) <> "key") :
  exists k md,
    key self = Ok (VStr k)
    /\ contains temp_doc_id k = true
    /\ to_dict self = Ok md
    /\ dict_get (id_name (_meta self)) md = Some (VStr temp_doc_id)
    /\ dict_get "key" md = Some (VStr k).
Proof.
  pose proof (key_unfixed self p c Hkey Hp Hc) as K. rewrite Hid in K.
  destruct (strip_leading_keeps_last p c temp_doc_id) as [x Hx].
  rewrite Hx in K.
  exists (x ++ String slash temp_doc_id). eexists.
  split; [ exact K | ].
  split; [ apply contains_last_segment | ].
  split.
  - unfold to_dict. rewrite Hdb, K. cbv beta iota delta [bind].
    reflexivity.
  - split.
    + rewrite dict_get_set_other by exact Hn.
      rewrite get_id_app by reflexivity.
      apply dict_get_set_same.
    + apply dict_get_set_same.
Qed.

Lemma to_dict_unresolved_id_witness :
  to_db_dict user false false false = Ok []
  /\ exists k md,
      key user = Ok (VStr k)
      /\ contains temp_doc_id k = true
      /\ to_dict user = Ok md
      /\ dict_get "id" md = Some (VStr temp_doc_id)
      /\ dict_get "key" md = Some (VStr k).
Proof.
  split; [ reflexivity | ].
  apply (to_dict_unresolved_id user "" "user" []);
    try reflexivity; discriminate.
Defined.

End ToDict.

(** ** [update] *)

Section UpdateFacts.
Import utils model samples.
Local Open Scope string_scope.
Variable new_IDField : Field.


End UpdateFacts.



(** ** The change tracker *)

Section ChangeTracker.
Import utils model samples.

Lemma in_field_list_iff (n : string) (m : Meta) :
  in_field_list n m = true <-> exists f, In f (field_list m) /\ name f = n.
Proof.
  unfold in_field_list. rewrite existsb_exists.
  split; intros (f & Hf & E); exists f; split; auto.
  - symmetry. now apply String.eqb_eq.
  - subst. apply String.eqb_refl.
Qed.

Lemma track_meta (self : Model) (k : string) :
  _meta (track self k) = _meta self.
Proof. unfold track. now destruct (in_field_list k (_meta self)). Qed.

Lemma track_log (self : Model) (k : string) :
  _field_changed (track self k)
  = _field_changed self ++ declared_entry (_meta self) k.
Proof.
  unfold track, declared_entry.
  destruct (in_field_list k (_meta self)); simpl;
    [ reflexivity | now rewrite app_nil_r ].
Qed.

Lemma getattr_track (self : Model) (k n : string) :
  getattr (track self k) n = getattr self n.
Proof. unfold track. now destruct (in_field_list k (_meta self)). Qed.

Lemma to_log_map (l : list value) :
  forall log, to_log l = Some log -> l = map VStr log.
Proof.
  induction l as [ | x l IH ]; simpl; intros log H.
  - now injection H as <-.
  - destruct x; try discriminate.
    destruct (to_log l) as [ r | ]; [ | discriminate ].
    injection H as <-. simpl. now rewrite (IH r eq_refl).
Qed.

Lemma object_setattr_log (self self' : Model) (k : string) (v : value) :
  object_setattr self k v = Some (Ok self') ->
  k <> "_field_changed" ->
  _field_changed self' = _field_changed self /\ _meta self' = _meta self.
Proof.
  unfold object_setattr. intros H Hk.
  destruct (String.eqb k "key"); [ discriminate | ].
  destruct (String.eqb_spec k "_field_changed"); [ contradiction | ].
  destruct (String.eqb k "_meta"); [ discriminate | ].
  destruct (String.eqb k "_id"); [ discriminate | ].
  injection H as <-. auto.
Qed.

(** On an ordinary name the method is the tracking store. *)
Lemma setattr_ordinary (self : Model) (n : string) (v : value) :
  ordinary_attr n = true ->
  setattr self n v = Some (Ok (__setattr__ self n v)).
Proof.
  unfold ordinary_attr. simpl. intros H. apply negb_true_iff in H.
  apply orb_false_iff in H as [H1 H].
  apply orb_false_iff in H as [H2 H].
  apply orb_false_iff in H as [H3 H].
  apply orb_false_iff in H as [H4 _].
  unfold setattr, object_setattr. now rewrite H1, H2, H3, H4.
Qed.

(** Through the property, an ordinary id attribute is set by [set__id]. *)
Lemma setattr_id_property (self : Model) (v : value) :
  ordinary_attr (id_name (_meta self)) = true ->
  setattr self "_id" v = Some (set__id (track self "_id") v).
Proof.
  intros H. unfold setattr. simpl String.eqb. unfold _id_setter.
  pose proof (setattr_ordinary (track self "_id")
                (id_name (_meta (track self "_id"))) v) as S.
  rewrite track_meta in *. specialize (S H).
  unfold setattr in S.
  unfold ordinary_attr in H. simpl in H. apply negb_true_iff in H.
  apply orb_false_iff in H as [H1 _]. rewrite H1 in S.
  rewrite S. unfold set__id. now rewrite track_meta.
Qed.

(** C8, as the code has it.  When an assignment completes, the change
    log has grown by the attribute's name if that name is a declared
    field, whatever the value, and by nothing if it is any other ordinary
    attribute.  Assigning the property [_id] runs the setter, whose own
    assignments are logged in the same way: the id attribute, and [_key]
    when the id is not empty.  Assigning [_field_changed] itself replaces
    the log by the list assigned. *)
Theorem setattr_change_log (self self' : Model) (n : string) (v : value)
        (H : setattr self n v = Some (Ok self')) :
  (n <> "_field_changed" ->
   id_name (_meta self) <> "_field_changed" ->
   _field_changed self'
   = _field_changed self
     ++ declared_entry (_meta self) n
     ++ (if String.eqb n "_id"
         then declared_entry (_meta self) (id_name (_meta self))
              ++ (if truthy v then declared_entry (_meta self) "_key"
                  else [])
         else []))
  /\ (n = "_field_changed" -> v = VList (map VStr (_field_changed self'))).
Proof.
  unfold setattr in H. split.
  - intros Hn Hidn.
    destruct (String.eqb_spec n "_id") as [ -> | Hne ].
    + unfold _id_setter in H. rewrite track_meta in H.
      destruct (object_setattr
                  (track (track self "_id") (id_name (_meta self)))
                  (id_name (_meta self)) v) as [ [ s1 | e ] | ] eqn:O;
        try discriminate.
      apply object_setattr_log in O as [L M]; [ | exact Hidn ].
      rewrite !track_log, !track_meta in L. rewrite !track_meta in M.
      injection H as H.
      destruct (truthy v).
      * unfold _set_key in H.
        destruct (join_values _) as [ p | e ]; [ | discriminate ].
        cbn [bind] in H. injection H as <-.
        rewrite field_changed_setattr, L, M.
        unfold declared_entry.
        destruct (in_field_list "_key" (_meta self));
          now rewrite <- ?app_assoc, ?app_nil_r.
      * injection H as <-. rewrite L.
        now rewrite <- ?app_assoc, ?app_nil_r.
    + apply object_setattr_log in H as [L _]; [ | exact Hn ].
      now rewrite L, track_log, app_nil_r.
  - intros ->. simpl String.eqb in H. unfold object_setattr in H.
    simpl String.eqb in H.
    destruct v; try discriminate.
    destruct (to_log l) as [ log | ] eqn:T; [ | discriminate ].
    injection H as <-. simpl. f_equal. now apply to_log_map.
Qed.

Lemma setattr_change_log_witness :
  setattr user "name" (VStr "x") = Some (Ok user_named)
  /\ _field_changed user_named = _field_changed user ++ ["name"].
Proof.
  split; [ reflexivity | ].
  destruct (setattr_change_log user user_named "name" (VStr "x") eq_refl)
    as [A _].
  apply A; discriminate.
Defined.

(** C8, as stated, fails: [Tagged] declares the field [id] and no id
    field; [_id] is not a declared field, yet assigning it runs the
    setter, which assigns [id], and the log grows by [id]. *)
Lemma setattr_id_logs_id_field :
  in_field_list "_id" (_meta tagged) = false
  /\ _field_changed tagged = []
  /\ exists self',
      setattr tagged "_id" (VStr "u1") = Some (Ok self')
      /\ _field_changed self' = ["id"].
Proof.
  split; [ reflexivity | ]. split; [ reflexivity | ].
  eexists. split; reflexivity.
Qed.

(** C5, as the code has it.  When [populate_from_doc_dict] completes,
    the change log is what it was before: hydration appends nothing to
    it, and the assignments made before the hydration are still
    recorded. *)
Theorem populate_leaves_change_log (self self' : Model) (doc : dict)
        (H : populate_from_doc_dict self doc = Ok self') :
  _field_changed self' = _field_changed self.
Proof.
  revert self self' H.
  induction doc as [ | [k v] doc IH ]; simpl; intros self self' H.
  - now injection H as <-.
  - destruct (get_field_by_column_name (_meta self) k) as [ field | ].
    + destruct (field_value field v) as [ val | e ]; simpl in H;
        [ | discriminate ].
      apply IH in H. now rewrite H.
    + now apply IH.
Qed.

Lemma populate_leaves_change_log_witness :
  exists self',
    populate_from_doc_dict user_named [("name", VStr "y")] = Ok self'
    /\ _field_changed self' = _field_changed user_named.
Proof.
  eexists. split; [ reflexivity | ].
  apply (populate_leaves_change_log user_named _ [("name", VStr "y")]).
  reflexivity.
Defined.

(** C5, as stated, fails: [name] is assigned, the instance is then
    hydrated from [{"name": "y"}], and [name] is still in the log. *)
Lemma populate_keeps_earlier_assignments :
  exists self',
    populate_from_doc_dict user_named [("name", VStr "y")] = Ok self'
    /\ getattr self' "name" = VStr "y"
    /\ _field_changed user_named = ["name"]
    /\ _field_changed self' = ["name"].
Proof. eexists. repeat split. Qed.

End ChangeTracker.

(** ** The serializer: [to_db_dict], [_get_fields] *)

Section Serializer.
Import utils model samples.

Variables (self : Model) (ignore_required ignore_default : bool)
          (changed_only : bool).

(** C7.  [to_db_dict] raises exactly when some field that is not passed
    over fails to coerce while every field before it in registry order
    was passed over or coerced; what it raises is then the serialization
    error whose path is that one field's name and whose cause is that
    field's own exception.  Fields after it are not looked at. *)
Theorem to_db_dict_error (e : exn) :
  to_db_dict self ignore_required ignore_default changed_only = Err e <->
  exists pre field post cause,
    field_list (_meta self) = pre ++ field :: post
    /\ Forall (fun g =>
                 changed_only && negb (in_changed (name g) self) = true
                 \/ exists v,
                     get_value g (getattr self (name g)) ignore_required
                               ignore_default changed_only = Ok v)
              pre
    /\ changed_only && negb (in_changed (name field) self) = false
    /\ get_value field (getattr self (name field)) ignore_required
                 ignore_default changed_only = Err cause
    /\ e = ModelSerializingWrappedError [name field] cause.
Proof.
  unfold to_db_dict. generalize (@nil (string * value)).
  generalize (field_list (_meta self)).
  intros fields.
  induction fields as [ | f rest IH ]; intros acc; simpl.
  - split; [ discriminate | ].
    intros (pre & field & post & cause & E & _).
    now destruct pre.
  - split.
    + destruct (changed_only && negb (in_changed (name f) self)) eqn:Sk.
      * intros H. apply IH in H as (pre & g & post & cause & -> & Hpre & R).
        exists (f :: pre), g, post, cause.
        split; [ reflexivity | split; [ constructor; auto | exact R ] ].
      * destruct (get_value f (getattr self (name f)) ignore_required
                            ignore_default changed_only) as [ v | err ]
          eqn:Gv.
        -- intros H.
           assert (H' : exists acc',
                      to_db_dict_loop self ignore_required ignore_default
                                      changed_only rest acc' = Err e).
           { destruct (negb (is_none v)
                       || negb (ignore_none_field (_meta self)));
               eauto. }
           destruct H' as [acc' H'].
           apply IH in H' as (pre & g & post & cause & -> & Hpre & R).
           exists (f :: pre), g, post, cause.
           split; [ reflexivity | split; [ | exact R ] ].
           constructor; eauto.
        -- intros H. injection H as <-.
           exists [], f, rest, err. repeat split; auto.
    + intros (pre & g & post & cause & E & Hpre & Sk & Gv & ->).
      destruct pre as [ | f' pre ]; simpl in E; injection E as E1 E2.
      * subst g post. now rewrite Sk, Gv.
      * subst f' rest. inversion Hpre as [ | ? ? Hf Hpre' ]; subst.
        assert (R : forall acc', to_db_dict_loop self ignore_required
                      ignore_default changed_only (pre ++ g :: post) acc'
                    = Err (ModelSerializingWrappedError [name g] cause)).
        { intros acc'. apply IH.
          exists pre, g, post, cause. repeat split; auto. }
        destruct (changed_only && negb (in_changed (name f) self)) eqn:Sk'.
        -- apply R.
        -- destruct Hf as [ Hf | [v Hv] ]; [ discriminate | ].
           rewrite Hv.
           destruct (negb (is_none v)
                     || negb (ignore_none_field (_meta self))); apply R.
Qed.

End Serializer.

Lemma to_db_dict_error_witness :
  model.to_db_dict samples.strict false false false
  = Err (ModelSerializingWrappedError ["a"] (FieldError 1)).
Proof.
  apply (to_db_dict_error samples.strict false false false).
  exists [], (samples.required_field "a" 1), [samples.required_field "b" 2],
    (FieldError 1).
  repeat split. constructor.
Defined.

(** ** Which fields reach the dictionaries *)

Section Registry.
Context {A K : Type} (h : A -> K).

Lemma NoDup_map_inj (l : list A) (a b : A) :
  NoDup (map h l) -> In a l -> In b l -> h a = h b -> a = b.
Proof.
  induction l as [ | x l IH ]; simpl; [ contradiction | ].
  intros Hnd Ha Hb E. inversion Hnd as [ | ? ? Hx Hl ]; subst.
  destruct Ha as [ -> | Ha ], Hb as [ -> | Hb ]; auto.
  - exfalso. apply Hx. rewrite E. now apply in_map.
  - exfalso. apply Hx. rewrite <- E. now apply in_map.
Qed.
End Registry.

Lemma dict_mem_set {V : Type} (k k' : string) (v : V)
      (d : list (string * V)) :
  dict_mem k (dict_set k' v d) = String.eqb k k' || dict_mem k d.
Proof.
  unfold dict_mem. destruct (String.eqb_spec k k') as [ -> | Hne ]; simpl.
  - now rewrite dict_get_set_same.
  - now rewrite dict_get_set_other.
Qed.

Section Filtering.
Import utils model samples.

Variables (self : Model) (ignore_required ignore_default : bool)
          (changed_only : bool).

(** A column is in the dictionary when it was there before or belongs to
    a field that is not passed over, coerces, and has its value kept. *)
Lemma to_db_dict_loop_mem (fields : list Field) (col : string) :
  forall acc d,
    to_db_dict_loop self ignore_required ignore_default changed_only
                    fields acc = Ok d ->
    (dict_mem col d = true <->
     dict_mem col acc = true
     \/ exists f,
         In f fields /\ db_column_name f = col
         /\ changed_only && negb (in_changed (name f) self) = false
         /\ exists v,
             get_value f (getattr self (name f))
                       ignore_required ignore_default changed_only = Ok v
             /\ negb (is_none v) || negb (ignore_none_field (_meta self))
                = true).
Proof.
  induction fields as [ | f rest IH ]; simpl; intros acc d H.
  - injection H as <-. split; auto.
    intros [ ? | (f & [] & _) ]; auto.
  - destruct (changed_only && negb (in_changed (name f) self)) eqn:Sk.
    + rewrite (IH _ _ H). split.
      * intros [ ? | (g & Hg & R) ]; [ now left | right ].
        exists g. auto.
      * intros [ ? | (g & [ <- | Hg ] & E & Sk' & R) ];
          [ now left | congruence | right ].
        exists g. auto.
    + destruct (get_value f (getattr self (name f)) ignore_required
                          ignore_default changed_only) as [ v | err ]
        eqn:Gv; [ | discriminate ].
      destruct (negb (is_none v) || negb (ignore_none_field (_meta self)))
        eqn:Keep; rewrite (IH _ _ H); clear IH H.
      * rewrite dict_mem_set. split.
        -- intros [ Hm | (g & Hg & R) ]; [ | right; exists g; auto ].
           apply orb_true_iff in Hm as [ Hm | Hm ]; [ | now left ].
           apply String.eqb_eq in Hm. right. exists f.
           repeat split; eauto.
        -- intros [ Hm | (g & [ <- | Hg ] & E & R) ].
           ++ left. rewrite Hm. apply orb_true_r.
           ++ left. rewrite <- E, String.eqb_refl. reflexivity.
           ++ right. exists g. auto.
      * split.
        -- intros [ ? | (g & Hg & R) ]; [ now left | right ].
           exists g. auto.
        -- intros [ ? | (g & [ <- | Hg ] & E & Sk' & v' & Gv' & Keep') ].
           ++ now left.
           ++ rewrite Gv in Gv'. injection Gv' as <-. congruence.
           ++ right. exists g. repeat split; eauto.
Qed.

Lemma get_fields_mem (n : string) (fields : list Field) :
  forall acc : dict,
    dict_mem n
      (fold_left
         (fun fl f =>
            let v := getattr self (name f) in
            if negb changed_only
               || in_changed (name f) self
               || (is_map_field f && negb (is_none v))
            then dict_set (name f) v fl
            else fl)
         fields acc) = true <->
    dict_mem n acc = true
    \/ exists f, In f fields /\ name f = n
                 /\ negb changed_only
                    || in_changed (name f) self
                    || (is_map_field f
                        && negb (is_none (getattr self (name f)))) = true.
Proof.
  induction fields as [ | f rest IH ]; simpl; intros acc.
  - split; auto. intros [ ? | (f & [] & _) ]; auto.
  - rewrite IH. clear IH.
    destruct (negb changed_only || in_changed (name f) self
              || (is_map_field f
                  && negb (is_none (getattr self (name f))))) eqn:C.
    + rewrite dict_mem_set. split.
      * intros [ Hm | (g & Hg & R) ]; [ | right; exists g; auto ].
        apply orb_true_iff in Hm as [ Hm | Hm ]; [ | now left ].
        apply String.eqb_eq in Hm. right. exists f. auto.
      * intros [ Hm | (g & [ <- | Hg ] & E & R) ].
        -- left. rewrite Hm. apply orb_true_r.
        -- left. rewrite <- E, String.eqb_refl. reflexivity.
        -- right. exists g. auto.
    + split.
      * intros [ ? | (g & Hg & R) ]; [ now left | right ].
        exists g. auto.
      * intros [ ? | (g & [ <- | Hg ] & E & R) ];
          [ now left | congruence | right ].
        exists g. auto.
Qed.

End Filtering.

Section ChangedOnly.
Import utils model samples.

(** C2, as the code has it.  In a registry whose column names and field
    names are pairwise distinct: whenever [to_db_dict(changed_only=True)]
    returns, it has written the column of a field that is not a map
    exactly when the field's name is in the change log and its coerced
    value is not a null that the model omits; and
    [_get_fields(changed_only=True)] holds a field exactly when its name
    is in the change log or it is a map field whose current value is not
    null. *)
Theorem changed_only_filter (self : Model)
        (ignore_required ignore_default : bool) (f : Field)
        (Hcols : NoDup (map db_column_name (field_list (_meta self))))
        (Hnames : NoDup (map name (field_list (_meta self))))
        (Hf : In f (field_list (_meta self))) :
  (forall d,
     to_db_dict self ignore_required ignore_default true = Ok d ->
     is_map_field f = false ->
     (dict_mem (db_column_name f) d = true <->
      in_changed (name f) self = true
      /\ exists v,
          get_value f (getattr self (name f))
                    ignore_required ignore_default true = Ok v
          /\ (is_none v = false
              \/ ignore_none_field (_meta self) = false)))
  /\ (dict_mem (name f) (_get_fields self true) = true <->
      in_changed (name f) self = true
      \/ (is_map_field f = true
          /\ is_none (getattr self (name f)) = false)).
Proof.
  split.
  - intros d Hd _. unfold to_db_dict in Hd.
    rewrite (to_db_dict_loop_mem _ _ _ _ _ (db_column_name f) _ _ Hd).
    simpl. split.
    + intros [ Hm | (g & Hg & E & Sk & v & Gv & Keep) ];
        [ discriminate | ].
      assert (g = f) as ->
          by (apply (NoDup_map_inj db_column_name
                                   (field_list (_meta self))); auto).
      split.
      * now apply negb_false_iff in Sk.
      * exists v. split; auto.
        apply orb_true_iff in Keep as [ K | K ];
          apply negb_true_iff in K; auto.
    + intros (Hin & v & Gv & Keep). right. exists f.
      repeat split; auto.
      * now rewrite Hin.
      * exists v. split; auto.
        destruct Keep as [ -> | -> ]; auto. apply orb_true_r.
  - unfold _get_fields. rewrite get_fields_mem. simpl. split.
    + intros [ Hm | (g & Hg & E & C) ]; [ discriminate | ].
      assert (g = f) as ->
          by (apply (NoDup_map_inj name (field_list (_meta self))); auto).
      apply orb_true_iff in C as [ C | C ]; auto.
      apply andb_true_iff in C as [ C1 C2 ].
      apply negb_true_iff in C2. auto.
    + intros H. right. exists f. repeat split; auto.
      destruct H as [ -> | [ -> -> ] ]; auto. apply orb_true_r.
Qed.

Lemma changed_only_filter_witness :
  In (plain_field OtherField "name") (field_list (_meta user_named))
  /\ to_db_dict user_named false false true = Ok [("name", VStr "x")]
  /\ (dict_mem "name" [("name", VStr "x")] = true <->
      in_changed "name" user_named = true
      /\ exists v,
          Ok (getattr user_named "name") = Ok v
          /\ (is_none v = false
              \/ ignore_none_field (_meta user_named) = false))
  /\ (dict_mem "name" (_get_fields user_named true) = true <->
      in_changed "name" user_named = true
      \/ (is_map_field (plain_field OtherField "name") = true
          /\ is_none (getattr user_named "name") = false)).
Proof.
  split; [ now left | ].
  split; [ reflexivity | ].
  destruct (changed_only_filter user_named false false
                                (plain_field OtherField "name"))
    as [A B].
  - repeat constructor; simpl; intuition discriminate.
  - repeat constructor; simpl; intuition discriminate.
  - now left.
  - split; [ | exact B ].
    apply (A [("name", VStr "x")]); reflexivity.
Defined.

(** C2, as stated, fails: [name] was assigned [None] and is in the
    change log, [prefs] is a map field holding a mapping, and
    [to_db_dict(changed_only=True)] is empty: the null of [name] is
    omitted by [ignore_none_field], and no exception is made for the
    unassigned map. *)
Lemma changed_only_omits :
  to_db_dict user_loaded false false true = Ok []
  /\ in_changed "name" user_loaded = true
  /\ ignore_none_field (_meta user_loaded) = true
  /\ is_map_field (plain_field MapField "prefs") = true
  /\ getattr user_loaded "prefs" = VDict [("theme", VStr "dark")].
Proof. repeat split. Qed.

End ChangedOnly.

(** ** Round trip through the store *)

Section RoundTrip.
Import utils model samples.

Lemma in_dict_set {V : Type} (k k' : string) (v v' : V)
      (d : list (string * V)) :
  In (k, v) (dict_set k' v' d) -> (k, v) = (k', v') \/ In (k, v) d.
Proof.
  induction d as [ | [k2 v2] d IH ]; simpl.
  - intros [ E | [] ]; auto.
  - destruct (String.eqb_spec k' k2) as [ -> | Hne ]; simpl.
    + intros [ E | H ]; auto.
    + intros [ E | H ]; auto. apply IH in H as [ H | H ]; auto.
Qed.

(** Every entry of the storage dictionary is some field's column with
    that field's coerced value. *)
Lemma to_db_dict_loop_entries (self : Model) (a b c : bool)
      (fields : list Field) :
  forall acc d,
    to_db_dict_loop self a b c fields acc = Ok d ->
    forall k v,
      In (k, v) d ->
      In (k, v) acc
      \/ exists f, In f fields /\ db_column_name f = k
                   /\ get_value f (getattr self (name f)) a b c = Ok v.
Proof.
  induction fields as [ | f rest IH ]; simpl; intros acc d H k v Hin.
  - injection H as <-. auto.
  - destruct (c && negb (in_changed (name f) self)).
    + destruct (IH _ _ H _ _ Hin) as [ ? | (g & Hg & R) ]; auto.
      right. exists g. auto.
    + destruct (get_value f (getattr self (name f)) a b c) as [ x | err ]
        eqn:Gv; [ | discriminate ].
      destruct (negb (is_none x) || negb (ignore_none_field (_meta self))).
      * destruct (IH _ _ H _ _ Hin) as [ Hs | (g & Hg & R) ].
        -- apply in_dict_set in Hs as [ E | Hs ]; auto.
           injection E as -> ->. right. exists f. auto.
        -- right. exists g. auto.
      * destruct (IH _ _ H _ _ Hin) as [ ? | (g & Hg & R) ]; auto.
        right. exists g. auto.
Qed.

Lemma get_field_by_column_name_found (m : Meta) (f : Field) :
  NoDup (map db_column_name (field_list m)) ->
  In f (field_list m) ->
  get_field_by_column_name m (db_column_name f) = Some f.
Proof.
  unfold get_field_by_column_name.
  induction (field_list m) as [ | g l IH ]; simpl; [ contradiction | ].
  intros Hnd Hin. inversion Hnd as [ | ? ? Hg Hl ]; subst.
  destruct (String.eqb_spec (db_column_name f) (db_column_name g))
    as [ E | Hne ].
  - destruct Hin as [ -> | Hin ]; auto.
    exfalso. apply Hg. rewrite <- E. now apply in_map.
  - destruct Hin as [ -> | Hin ]; [ congruence | auto ].
Qed.

(** The storage dictionary only reads the declared fields. *)
Lemma to_db_dict_loop_ext (s1 s2 : Model) (a b c : bool)
      (fields : list Field) :
  _meta s1 = _meta s2 ->
  _field_changed s1 = _field_changed s2 ->
  (forall f, In f fields -> getattr s1 (name f) = getattr s2 (name f)) ->
  forall acc,
    to_db_dict_loop s1 a b c fields acc
    = to_db_dict_loop s2 a b c fields acc.
Proof.
  intros Hm Hl. unfold in_changed.
  induction fields as [ | f rest IH ]; simpl; intros Hg acc; auto.
  unfold in_changed. rewrite Hl, Hm, (Hg f) by auto.
  destruct (c && negb (existsb (String.eqb (name f)) (_field_changed s2)));
    [ now apply IH; auto | ].
  destruct (get_value f (getattr s2 (name f)) a b c); auto.
  destruct (negb (is_none v) || negb (ignore_none_field (_meta s2)));
    apply IH; auto.
Qed.

(** Hydrating from entries that each carry a field's own value back
    leaves every declared field as it was. *)
Lemma populate_restores (self0 : Model) (doc : dict) :
  NoDup (map db_column_name (field_list (_meta self0))) ->
  (forall k v, In (k, v) doc ->
     exists f, In f (field_list (_meta self0))
               /\ db_column_name f = k
               /\ field_value f v = Ok (getattr self0 (name f))) ->
  forall self,
    _meta self = _meta self0 ->
    (forall f, In f (field_list (_meta self0)) ->
               getattr self (name f) = getattr self0 (name f)) ->
    exists self',
      populate_from_doc_dict self doc = Ok self'
      /\ _meta self' = _meta self0
      /\ _field_changed self' = _field_changed self
      /\ forall f, In f (field_list (_meta self0)) ->
                   getattr self' (name f) = getattr self0 (name f).
Proof.
  intros Hnd. induction doc as [ | [k v] doc IH ]; simpl;
    intros Hdoc self Hm Hg.
  - exists self. auto.
  - destruct (Hdoc k v) as (f & Hf & <- & Fv); [ now left | ].
    rewrite Hm, (get_field_by_column_name_found _ f Hnd Hf), Fv. simpl.
    destruct (IH (fun k' v' H => Hdoc k' v' (or_intror H))
                 (_set_orig_attr self (name f) (getattr self0 (name f))))
      as (self' & P & Hm' & Hl' & Hg'); auto.
    + intros g Hgin. rewrite getattr_set_orig_attr.
      destruct (String.eqb_spec (name g) (name f)) as [ E | _ ]; auto.
      now rewrite E.
    + exists self'. auto.
Qed.

(** C6.  In a registry with pairwise distinct column names whose
    descriptors read back what they wrote, a storage dictionary [D]
    built by [to_db_dict()] with no field left out hydrates the
    instance without error, and [to_db_dict()] then builds [D] again. *)
Theorem to_db_dict_round_trip (self : Model) (D : dict)
        (Hcols : NoDup (map db_column_name (field_list (_meta self))))
        (Hinv : forall f x v,
            In f (field_list (_meta self)) ->
            get_value f x false false false = Ok v ->
            field_value f v = Ok x)
        (Hfull : forall f, In f (field_list (_meta self)) ->
                           dict_mem (db_column_name f) D = true)
        (HD : to_db_dict self false false false = Ok D) :
  exists self',
    populate_from_doc_dict self D = Ok self'
    /\ to_db_dict self' false false false = Ok D.
Proof.
  pose proof Hcols as Hnd.
  assert (Hdoc : forall k v, In (k, v) D ->
            exists f, In f (field_list (_meta self))
                      /\ db_column_name f = k
                      /\ field_value f v = Ok (getattr self (name f))).
  { intros k v Hin.
    destruct (to_db_dict_loop_entries _ _ _ _ _ _ _ HD _ _ Hin)
      as [ [] | (f & Hf & E & Gv) ].
    exists f. eauto. }
  destruct (populate_restores self D Hnd Hdoc self eq_refl
                              (fun _ _ => eq_refl))
    as (self' & P & Hm & Hl & Hg).
  exists self'. split; [ exact P | ].
  unfold to_db_dict. rewrite Hm.
  rewrite (to_db_dict_loop_ext self' self); auto.
Qed.

Lemma to_db_dict_round_trip_witness :
  to_db_dict user_full false false false
  = Ok [("name", VStr "x"); ("prefs", VDict [("theme", VStr "dark")])]
  /\ exists self',
      populate_from_doc_dict
        user_full
        [("name", VStr "x"); ("prefs", VDict [("theme", VStr "dark")])]
      = Ok self'
      /\ to_db_dict self' false false false
         = Ok [("name", VStr "x");
               ("prefs", VDict [("theme", VStr "dark")])].
Proof.
  split; [ reflexivity | ].
  apply (to_db_dict_round_trip user_full).
  - repeat constructor; simpl; intuition discriminate.
  - intros f x v [ <- | [ <- | [] ] ]; simpl; congruence.
  - intros f [ <- | [ <- | [] ] ]; reflexivity.
  - reflexivity.
Defined.

(** The samples are what the constructor builds, and the path helpers
    answer as described. *)
Example user_constructed :
  __init__ "User" (VStr "user") user_meta [] = Some (Ok user)
  /\ __init__ "User" (VStr "user") user_meta
              [("name", VStr "x");
               ("prefs", VDict [("theme", VStr "dark")])]
     = Some (Ok user_full)
  /\ get_id (VStr "org/acme/user/u1") = VStr "u1"
  /\ get_parent_doc "org/acme/user/u1" = "org/acme"%string
  /\ get_id VNone = VNone
  /\ from_dict "User" (VStr "user") user_meta VNone = Some (Ok None).
Proof. repeat split. Qed.

End RoundTrip.

(** * Further properties of the path helpers *)

Section PathFacts.
Import utils model.
Local Open Scope string_scope.

Lemma join_cons (x : string) (l : list string) :
  l <> [] -> join (x :: l) = x ++ String slash (join l).
Proof. destruct l; [ congruence | reflexivity ]. Qed.

Lemma join_cons_char (c : ascii) (h : string) (r : list string) :
  join (String c h :: r) = String c (join (h :: r)).
Proof. destruct r; reflexivity. Qed.

Lemma join_app (l1 l2 : list string) :
  l1 <> [] -> l2 <> [] ->
  join (l1 ++ l2)%list = join l1 ++ String slash (join l2).
Proof.
  intros H1 H2. induction l1 as [ | x l1 IH ]; [ congruence | ].
  destruct l1 as [ | y l1 ].
  - simpl app. now rewrite join_cons.
  - change ((x :: y :: l1) ++ l2)%list with (x :: ((y :: l1) ++ l2))%list.
    rewrite !join_cons by discriminate.
    rewrite IH by discriminate. now rewrite append_assoc.
Qed.

Lemma join_split (key : string) : join (split key) = key.
Proof.
  induction key as [ | c t IH ]; [ reflexivity | ].
  simpl split. destruct (Ascii.eqb_spec c slash) as [ -> | Hne ].
  - rewrite join_cons by apply split_not_nil. now rewrite IH.
  - pose proof (split_not_nil t) as Hs.
    destruct (split t) as [ | h r ]; [ congruence | ].
    now rewrite join_cons_char, IH.
Qed.

Lemma isKey_false_split (x : string) : isKey x = false <-> split x = [x].
Proof.
  unfold isKey. induction x as [ | c t IH ].
  - split; reflexivity.
  - cbn [contains split String.prefix].
    destruct (Ascii.eqb_spec c slash) as [ -> | Hne ].
    + destruct (ascii_dec "/" slash) as [ _ | n ]; [ | now elim n ].
      split; [ destruct t; discriminate | discriminate ].
    + destruct (ascii_dec "/" c) as [ e | _ ];
        [ now elim Hne | ].
      simpl orb. rewrite IH. split.
      * now intros ->.
      * pose proof (split_not_nil t) as Hs.
        destruct (split t) as [ | h r ]; [ congruence | ].
        intros E. injection E as -> ->. reflexivity.
Qed.

Lemma split_segments_plain (k : string) :
  Forall (fun x => isKey x = false) (split k).
Proof.
  induction k as [ | c t IH ]; simpl.
  - constructor; [ reflexivity | constructor ].
  - destruct (Ascii.eqb_spec c slash) as [ -> | Hne ].
    + constructor; [ reflexivity | exact IH ].
    + destruct (split t) as [ | h r ].
      * constructor; [ | constructor ].
        apply isKey_false_split. simpl.
        destruct (Ascii.eqb_spec c slash); [ contradiction | reflexivity ].
      * inversion IH as [ | ? ? Hh Hr ]; subst.
        constructor; [ | exact Hr ].
        apply isKey_false_split. apply isKey_false_split in Hh.
        simpl. destruct (Ascii.eqb_spec c slash); [ contradiction | ].
        now rewrite Hh.
Qed.

(** X1.  [ref_path] cuts a key into at least one segment, no segment
    contains the separator, and joining the segments with the separator
    gives the key back. *)
Theorem join_ref_path (key : string) :
  join (ref_path key) = key
  /\ ref_path key <> []
  /\ Forall (fun x => isKey x = false) (ref_path key).
Proof.
  unfold ref_path. split; [ | split ].
  - apply join_split.
  - apply split_not_nil.
  - apply split_segments_plain.
Qed.

(** X2.  Splitting a joined path gives the segments back, provided there
    is at least one segment and none of them contains the separator. *)
Theorem ref_path_join (l : list string)
        (Hne : l <> [])
        (Hplain : Forall (fun x => isKey x = false) l) :
  ref_path (join l) = l.
Proof.
  unfold ref_path.
  induction Hplain as [ | x l Hx Hl IH ]; [ congruence | ].
  apply isKey_false_split in Hx.
  destruct l as [ | y l ]; [ exact Hx | ].
  rewrite join_cons by discriminate.
  rewrite split_app, Hx, IH by discriminate. reflexivity.
Qed.

Lemma ref_path_join_witness :
  ["org"; "acme"; "user"; "u1"] <> []
  /\ ref_path (join ["org"; "acme"; "user"; "u1"])
     = ["org"; "acme"; "user"; "u1"].
Proof.
  split; [ discriminate | ].
  apply (ref_path_join ["org"; "acme"; "user"; "u1"]);
    [ discriminate | repeat constructor ].
Defined.

Lemma join_removelast_last (l : list string) :
  (2 <= length l)%nat ->
  join l = join (removelast l) ++ String slash (last l "").
Proof.
  intros Hlen.
  rewrite (app_removelast_last "" (l := l)) at 1
    by (destruct l; [ simpl in Hlen; lia | discriminate ]).
  apply join_app; [ | discriminate ].
  destruct l as [ | x [ | y l ] ]; simpl in *; try lia; discriminate.
Qed.

Lemma isKey_length (k : string) :
  isKey k = true <-> (2 <= length (split k))%nat.
Proof.
  split.
  - intros H. destruct (split k) as [ | x [ | y l ] ] eqn:E; simpl; try lia.
    + now apply split_not_nil in E.
    + assert (k = x).
      { rewrite <- (join_split k). now rewrite E. }
      subst x. apply isKey_false_split in E. congruence.
  - intros H. destruct (isKey k) eqn:E; [ reflexivity | ].
    apply isKey_false_split in E. rewrite E in H. simpl in H. lia.
Qed.

(** X3.  A key that contains a separator is its collection path, a
    separator and its id; a key without separator is its own id and has
    the empty collection path; the id never contains a separator. *)
Theorem key_collection_path_id (key : string) :
  (if isKey key
   then key = collection_path key ++ "/" ++ last (split key) ""
   else collection_path key = "" /\ get_id (VStr key) = VStr key)
  /\ get_id (VStr key) = VStr (last (split key) "")
  /\ isKey (last (split key) "") = false.
Proof.
  split; [ | split; [ reflexivity | ] ].
  - destruct (isKey key) eqn:E.
    + apply isKey_length in E. unfold collection_path, but_last.
      rewrite <- join_removelast_last by exact E.
      symmetry. apply join_split.
    + apply isKey_false_split in E. unfold collection_path, but_last.
      simpl. now rewrite E.
  - pose proof (split_segments_plain key) as H.
    rewrite Forall_forall in H. apply H.
    pose proof (split_not_nil key) as Hne.
    destruct (split key) as [ | x l ]; [ congruence | ].
    apply (exists_last (l := x :: l)) in Hne as (l' & a & ->).
    rewrite last_last. apply in_or_app. right. now left.
Qed.

End PathFacts.

Section KeyRecovery.
Import utils model.
Local Open Scope string_scope.

Lemma removelast_app_two {A : Type} (l : list A) (a b : A) :
  removelast (l ++ [a; b]) = (l ++ [a])%list.
Proof.
  change [a; b] with ([a] ++ [b])%list.
  rewrite app_assoc. apply removelast_last.
Qed.

Lemma split_three (p c i : string) :
  isKey c = false -> isKey i = false ->
  split (p ++ String slash (c ++ String slash i)) = (split p ++ [c; i])%list.
Proof.
  intros Hc Hi. apply isKey_false_split in Hc, Hi.
  now rewrite !split_app, Hc, Hi.
Qed.

(** X4.  From a key [parent/collection/id] whose collection and id hold
    no separator, [get_parent_doc] gives the parent back, [get_parent]
    the collection path and [get_id] the id; a key of the two segments
    [collection/id] has the empty parent document. *)
Theorem key_parts_recovered (p c i : string)
        (Hc : isKey c = false) (Hi : isKey i = false) :
  get_parent_doc (p ++ "/" ++ c ++ "/" ++ i) = p
  /\ get_parent (p ++ "/" ++ c ++ "/" ++ i) = p ++ "/" ++ c
  /\ get_id (VStr (p ++ "/" ++ c ++ "/" ++ i)) = VStr i
  /\ get_parent_doc (c ++ "/" ++ i) = "".
Proof.
  pose proof (split_three p c i Hc Hi) as S.
  split; [ | split; [ | split ] ].
  - unfold get_parent_doc, but_last2.
    change (p ++ "/" ++ c ++ "/" ++ i)
      with (p ++ String slash (c ++ String slash i)).
    rewrite S, removelast_app_two, removelast_last.
    apply join_split.
  - unfold get_parent, collection_path, but_last.
    change (p ++ "/" ++ c ++ "/" ++ i)
      with (p ++ String slash (c ++ String slash i)).
    rewrite S, removelast_app_two.
    rewrite join_app; [ | apply split_not_nil | discriminate ].
    now rewrite join_split.
  - change (p ++ "/" ++ c ++ "/" ++ i)
      with (p ++ String slash (c ++ String slash i)).
    unfold get_id. rewrite S. f_equal.
    change [c; i] with ([c] ++ [i])%list.
    rewrite app_assoc. apply last_last.
  - apply isKey_false_split in Hc, Hi.
    unfold get_parent_doc, but_last2.
    change (c ++ "/" ++ i) with (c ++ String slash i).
    now rewrite split_app, Hc, Hi.
Qed.

Lemma key_parts_recovered_witness :
  isKey "user" = false /\ isKey "u1" = false
  /\ get_parent_doc ("org/acme" ++ "/" ++ "user" ++ "/" ++ "u1") = "org/acme".
Proof.
  split; [ reflexivity | ].
  split; [ reflexivity | ].
  apply (key_parts_recovered "org/acme" "user" "u1"); reflexivity.
Defined.

(** X5.  [generateKeyFromId] on a string collection name and a string id
    builds a key ([isKey] holds); when the id holds no separator,
    [get_id] gives the id back and [get_parent] the collection name. *)
Theorem generateKeyFromId_parts (c i : string) (Hi : isKey i = false) :
  exists k,
    generateKeyFromId (VStr c) (VStr i) = Ok k
    /\ isKey k = true
    /\ get_id (VStr k) = VStr i
    /\ get_parent k = c.
Proof.
  exists (c ++ "/" ++ i). split; [ reflexivity | ].
  pose proof Hi as Hs. apply isKey_false_split in Hs.
  assert (S : split (c ++ "/" ++ i) = (split c ++ [i])%list).
  { change (c ++ "/" ++ i) with (c ++ String slash i).
    now rewrite split_app, Hs. }
  split; [ | split ].
  - apply isKey_length. rewrite S, length_app. simpl.
    pose proof (split_not_nil c).
    destruct (split c); [ congruence | simpl; lia ].
  - unfold get_id. rewrite S. now rewrite last_last.
  - unfold get_parent, collection_path, but_last.
    rewrite S, removelast_last. apply join_split.
Qed.

Lemma generateKeyFromId_parts_witness :
  isKey "u1" = false
  /\ exists k,
      generateKeyFromId (VStr "user") (VStr "u1") = Ok k
      /\ isKey k = true
      /\ get_id (VStr k) = VStr "u1"
      /\ get_parent k = "user".
Proof.
  split; [ reflexivity | ].
  apply (generateKeyFromId_parts "user" "u1"). reflexivity.
Defined.

End KeyRecovery.

(** * Dotted paths: [join_keys], [get_flat_dict], [get_nested] *)

Section DottedPaths.
Import utils.
Local Open Scope string_scope.

(** X6.  [join_keys] can be resumed: joining more segments onto an
    already joined path is joining all of them at once; and joining
    strings only is joining them with dots. *)
Theorem join_keys_compose (first_arg : segment) (xs ys : list segment)
        (a : string) (l : list string) :
  join_keys first_arg (xs ++ ys)%list
  = join_keys (SStr (join_keys first_arg xs)) ys
  /\ join_keys (SStr a) (map SStr l) = String.concat "." (a :: l).
Proof.
  split.
  - unfold join_keys. now rewrite fold_left_app.
  - unfold join_keys. simpl str. revert a.
    induction l as [ | x l IH ]; intros a; [ reflexivity | ].
    simpl map. simpl fold_left. rewrite IH.
    destruct l as [ | y l ]; simpl; now rewrite ?append_assoc.
Qed.

Lemma nodup_keys_set {V : Type} (k : string) (v : V)
      (d : list (string * V)) :
  nodup_keys (map fst d) = true ->
  nodup_keys (map fst (dict_set k v d)) = true
  /\ forall k', existsb (String.eqb k') (map fst (dict_set k v d))
                = String.eqb k' k || existsb (String.eqb k') (map fst d).
Proof.
  induction d as [ | [k2 v2] d IH ]; simpl.
  - intros _. split; [ reflexivity | ]. intros k'. reflexivity.
  - intros H. apply andb_true_iff in H as [H1 H2].
    destruct (IH H2) as [IH1 IH2].
    destruct (String.eqb_spec k k2) as [ -> | Hne ]; simpl.
    + split; [ now rewrite H1, H2 | ].
      intros k'. destruct (String.eqb k' k2); reflexivity.
    + split.
      * rewrite IH1, IH2. apply negb_true_iff in H1. rewrite H1.
        destruct (String.eqb_spec k2 k); [ congruence | reflexivity ].
      * intros k'. rewrite IH2.
        destruct (String.eqb k' k2), (String.eqb k' k); reflexivity.
Qed.

Lemma nodup_keys_update (d other : dict) :
  nodup_keys (map fst d) = true ->
  nodup_keys (map fst (dict_update d other)) = true.
Proof.
  unfold dict_update. revert d.
  induction other as [ | [k v] other IH ]; simpl; intros d H; auto.
  apply IH. now apply nodup_keys_set.
Qed.

Lemma dict_update_Forall (Q : value -> Prop) (d other : dict) :
  Forall (fun kv => Q (snd kv)) d ->
  Forall (fun kv => Q (snd kv)) other ->
  Forall (fun kv => Q (snd kv)) (dict_update d other).
Proof.
  unfold dict_update. intros Hd Ho. revert d Hd.
  induction Ho as [ | [k v] other Hx Ho IH ]; simpl; intros d Hd; auto.
  apply IH. apply dict_set_Forall; auto.
Qed.

Lemma flat_value_values (v : value) :
  forall prefix,
    Forall (fun kv => is_dict (snd kv) = false) (flat_value v prefix).
Proof.
  induction v as [ | b | z | s | l IH | d IH | n ] using value_ind';
    intros prefix; try constructor.
  simpl. generalize (@nil (string * value)) (Forall_nil
    (fun kv : string * value => is_dict (snd kv) = false)).
  induction IH as [ | [k x] d Hx Hd IHd ]; simpl; intros acc Hacc; auto.
  apply IHd. simpl in Hx.
  destruct x;
    try (apply (dict_set_Forall
                  (fun kv : string * value => is_dict (snd kv) = false));
         [ reflexivity | exact Hacc ]).
  apply (dict_update_Forall (fun v => is_dict v = false)); auto.
Qed.

Lemma flat_value_keys (v : value) (prefix : string) :
  nodup_keys (map fst (flat_value v prefix)) = true.
Proof.
  destruct v; try reflexivity. simpl.
  assert (H : nodup_keys (map fst (@nil (string * value))) = true)
    by reflexivity.
  revert H. generalize (@nil (string * value)).
  induction l as [ | [k x] d IHd ]; simpl; intros acc Hacc; auto.
  apply IHd.
  destruct x; try (now apply nodup_keys_set).
  now apply nodup_keys_update.
Qed.

Lemma flat_value_fresh (r : dict) :
  Forall (fun kv => is_dict (snd kv) = false) r ->
  nodup_keys (map fst r) = true ->
  forall acc : dict,
    (forall k, In k (map fst r) ->
               existsb (String.eqb k) (map fst acc) = false) ->
    fold_left
      (fun flat_dict kv =>
         let key := if String.eqb "" "" then fst kv
                    else ("" ++ "." ++ fst kv) in
         match snd kv with
         | VDict _ => dict_update flat_dict (flat_value (snd kv) key)
         | x => dict_set key x flat_dict
         end)
      r acc
    = (acc ++ r)%list.
Proof.
  induction 1 as [ | [k x] r Hx Hr IH ]; simpl; intros Hnd acc Hacc.
  - now rewrite app_nil_r.
  - apply andb_true_iff in Hnd as [Hk Hnd]. apply negb_true_iff in Hk.
    simpl in Hx. simpl in IH.
    assert (F : forall k', In k' (map fst r) ->
                existsb (String.eqb k') (map fst (acc ++ [(k, x)])) = false).
    { intros k' Hk'. rewrite map_app, existsb_app. simpl.
      rewrite (Hacc k') by auto. simpl. rewrite orb_false_r.
      destruct (String.eqb_spec k' k) as [ -> | ]; auto.
      assert (existsb (String.eqb k) (map fst r) = true); [ | congruence ].
      apply existsb_exists. exists k. split; auto. apply String.eqb_refl. }
    destruct x; try discriminate;
      rewrite dict_set_fresh by auto;
      rewrite (IH Hnd _ F); now rewrite <- app_assoc.
Qed.

(** X7.  What [get_flat_dict] returns is flat: none of its values is a
    dictionary and no key occurs twice; flattening it again, without
    prefix, changes nothing. *)
Theorem get_flat_dict_flat (dict_ : dict) (prefix : option string) :
  Forall (fun kv => is_dict (snd kv) = false) (get_flat_dict dict_ prefix)
  /\ nodup_keys (map fst (get_flat_dict dict_ prefix)) = true
  /\ get_flat_dict (get_flat_dict dict_ prefix) None
     = get_flat_dict dict_ prefix.
Proof.
  unfold get_flat_dict.
  set (p := match prefix with Some p => p | None => "" end).
  pose proof (flat_value_values (VDict dict_) p) as Hv.
  pose proof (flat_value_keys (VDict dict_) p) as Hk.
  split; [ exact Hv | split; [ exact Hk | ] ].
  set (r := flat_value (VDict dict_) p) in *.
  change (flat_value (VDict r) "") with
    (fold_left
       (fun flat_dict kv =>
          let key := if String.eqb "" "" then fst kv
                     else ("" ++ "." ++ fst kv) in
          match snd kv with
          | VDict _ => dict_update flat_dict (flat_value (snd kv) key)
          | x => dict_set key x flat_dict
          end)
       r []).
  now rewrite flat_value_fresh.
Qed.

End DottedPaths.

Section NestedLookup.
Import utils.
Local Open Scope string_scope.

Lemma get_nested_false (v : value) (args : list string) :
  truthy v = false -> get_nested v args = Ok VNone.
Proof. intros H. destruct args; simpl; [ reflexivity | now rewrite H ]. Qed.

(** X8.  A lookup along a path can be done in two stages: looking up
    [xs ++ ys] is looking up [xs] and then [ys] in what was found, errors
    included, as long as neither part is empty. *)
Theorem get_nested_compose (dict_ : value) (xs ys : list string)
        (Hxs : xs <> []) (Hys : ys <> []) :
  get_nested dict_ (xs ++ ys)%list
  = (v <- get_nested dict_ xs ;; get_nested v ys).
Proof.
  revert dict_. induction xs as [ | x xs IH ]; [ congruence | ].
  intros dict_. destruct xs as [ | x' xs ].
  - destruct ys as [ | y ys ]; [ congruence | ].
    simpl app. cbn [get_nested].
    destruct (truthy dict_); [ | reflexivity ].
    destruct (truthy (VStr x)); [ | reflexivity ].
    destruct dict_; reflexivity.
  - change ((x :: x' :: xs) ++ ys)%list with (x :: ((x' :: xs) ++ ys))%list.
    assert (N : get_nested VNone ys = Ok VNone)
      by (now apply get_nested_false).
    cbn [get_nested app].
    destruct (truthy dict_); [ | cbn [bind]; now rewrite N ].
    destruct (truthy (VStr x)); [ | cbn [bind]; now rewrite N ].
    destruct dict_; try reflexivity.
    apply (IH ltac:(discriminate)).
Qed.

Lemma get_nested_compose_witness :
  get_nested (VDict [("a", VDict [("b", VInt 2)])]) (["a"] ++ ["b"])%list
  = (v <- get_nested (VDict [("a", VDict [("b", VInt 2)])]) ["a"] ;;
     get_nested v ["b"]).
Proof.
  apply (get_nested_compose _ ["a"] ["b"]); discriminate.
Defined.

(** X9.  One step down a path of non-empty names in a non-empty
    dictionary: a missing key and a false value ([None], [0], [''], an
    empty container) both end the lookup with [None]; a true value that
    is not a dictionary raises [AttributeError]; a dictionary is searched
    for the rest of the path. *)
Theorem get_nested_step (d : dict) (k e : string) (rest : list string)
        (Hd : d <> []) (Hk : k <> "") (He : e <> "") :
  get_nested (VDict d) (k :: e :: rest)
  = match dict_get k d with
    | None => Ok VNone
    | Some v =>
        if truthy v
        then if is_dict v then get_nested v (e :: rest)
             else Err AttributeError
        else Ok VNone
    end.
Proof.
  assert (Tk : truthy (VStr k) = true).
  { unfold truthy. destruct (String.eqb_spec k "");
      [ contradiction | reflexivity ]. }
  assert (Te : truthy (VStr e) = true).
  { unfold truthy. destruct (String.eqb_spec e "");
      [ contradiction | reflexivity ]. }
  assert (Td : truthy (VDict d) = true)
    by (destruct d; [ congruence | reflexivity ]).
  cbn [get_nested]. rewrite Td, Tk.
  destruct (dict_get k d) as [ v | ]; [ | reflexivity ].
  cbn [get_nested]. destruct (truthy v) eqn:Tv; [ | reflexivity ].
  rewrite Te. destruct v; reflexivity.
Qed.

Lemma get_nested_step_witness :
  get_nested (VDict [("a", VInt 1)]) ["a"; "b"] = Err AttributeError.
Proof.
  apply (get_nested_step [("a", VInt 1)] "a" "b" []); discriminate.
Defined.

End NestedLookup.

(** * [collection_name] *)

Section CollectionName.
Import utils.
Local Open Scope string_scope.

Lemma lower_char_not_upper (c : ascii) : is_upper (lower_char c) = false.
Proof. destruct c as [ [] [] [] [] [] [] [] [] ]; reflexivity. Qed.

Lemma lower_not_upper (s : string) :
  string_forallb (fun c => negb (is_upper c)) (lower s) = true.
Proof.
  induction s as [ | c t IH ]; simpl; [ reflexivity | ].
  now rewrite lower_char_not_upper, IH.
Qed.

Lemma lower_fixed (s : string) :
  string_forallb (fun c => negb (is_upper c)) s = true -> lower s = s.
Proof.
  induction s as [ | c t IH ]; simpl; [ reflexivity | ].
  intros H. apply andb_true_iff in H as [Hc Ht].
  apply negb_true_iff in Hc. unfold lower_char. now rewrite Hc, IH.
Qed.

Lemma underscore_runs_fixed (s : string) (in_run : bool) :
  string_forallb (fun c => negb (is_upper c)) s = true ->
  underscore_runs in_run s = s.
Proof.
  revert in_run. induction s as [ | c t IH ]; simpl; [ reflexivity | ].
  intros in_run H. apply andb_true_iff in H as [Hc Ht].
  apply negb_true_iff in Hc. now rewrite Hc, IH.
Qed.

Lemma collection_name_fixed (s : string) :
  string_forallb (fun c => negb (is_upper c)) s = true ->
  collection_name s = s.
Proof.
  intros H. unfold collection_name. destruct s as [ | c t ];
    [ reflexivity | ].
  pose proof H as H'. simpl in H'. apply andb_true_iff in H' as [_ Ht].
  rewrite underscore_runs_fixed by exact Ht. now apply lower_fixed.
Qed.

(** X10.  The collection name derived from an ASCII class name holds no
    capital letter; a name without capitals is its own collection name;
    deriving twice is deriving once. *)
Theorem collection_name_lowercase (model : string)
        (Hascii : ascii_text model = true) :
  string_forallb (fun c => negb (is_upper c)) (collection_name model) = true
  /\ (string_forallb (fun c => negb (is_upper c)) model = true ->
      collection_name model = model)
  /\ collection_name (collection_name model) = collection_name model.
Proof.
  assert (L : string_forallb (fun c => negb (is_upper c))
                             (collection_name model) = true)
    by apply lower_not_upper.
  split; [ exact L | split ].
  - apply collection_name_fixed.
  - now apply collection_name_fixed.
Qed.

Lemma collection_name_lowercase_witness :
  ascii_text "UserProfile" = true
  /\ collection_name "UserProfile" = "user_profile"
  /\ collection_name (collection_name "UserProfile")
     = collection_name "UserProfile".
Proof.
  split; [ reflexivity | ].
  split; [ reflexivity | ].
  apply (collection_name_lowercase "UserProfile"). reflexivity.
Defined.

End CollectionName.

(** * What [save], [upsert] and [update] hand to the manager *)

Section SentFields.
Import utils model samples.

Lemma get_fields_get (self : Model) (changed_only : bool) (n : string)
      (fields : list Field) :
  forall acc : dict,
    dict_get n
      (fold_left
         (fun fl f =>
            let v := getattr self (name f) in
            if negb changed_only
               || in_changed (name f) self
               || (is_map_field f && negb (is_none v))
            then dict_set (name f) v fl
            else fl)
         fields acc)
    = if existsb
           (fun f =>
              String.eqb n (name f)
              && (negb changed_only
                  || in_changed (name f) self
                  || (is_map_field f
                      && negb (is_none (getattr self (name f))))))
           fields
      then Some (getattr self n)
      else dict_get n acc.
Proof.
  induction fields as [ | f rest IH ]; simpl; intros acc; [ reflexivity | ].
  rewrite IH. clear IH.
  destruct (existsb _ rest); [ now rewrite orb_true_r | ].
  rewrite orb_false_r.
  destruct (negb changed_only || in_changed (name f) self
            || (is_map_field f && negb (is_none (getattr self (name f))))).
  - rewrite andb_true_r.
    destruct (String.eqb_spec n (name f)) as [ -> | Hne ].
    + now rewrite dict_get_set_same.
    + now rewrite dict_get_set_other.
  - now rewrite andb_false_r.
Qed.

Lemma get_fields_keys (self : Model) (changed_only : bool) :
  nodup_keys (map fst (_get_fields self changed_only)) = true.
Proof.
  unfold _get_fields.
  assert (H : nodup_keys (map fst (@nil (string * value))) = true)
    by reflexivity.
  revert H. generalize (@nil (string * value)).
  induction (field_list (_meta self)) as [ | f rest IH ]; simpl;
    intros acc Hacc; auto.
  apply IH.
  destruct (negb changed_only || in_changed (name f) self
            || (is_map_field f && negb (is_none (getattr self (name f)))));
    [ now apply nodup_keys_set | exact Hacc ].
Qed.

Lemma filter_fold_fresh (p : string -> bool) (d : dict) :
  nodup_keys (map fst d) = true ->
  forall acc : dict,
    (forall k, In k (map fst d) ->
               existsb (String.eqb k) (map fst acc) = false) ->
    fold_left
      (fun updated kv =>
         if p (fst kv) then dict_set (fst kv) (snd kv) updated else updated)
      d acc
    = (acc ++ filter (fun kv => p (fst kv)) d)%list.
Proof.
  induction d as [ | [k v] d IH ]; simpl; intros Hnd acc Hacc.
  - now rewrite app_nil_r.
  - apply andb_true_iff in Hnd as [Hk Hnd]. apply negb_true_iff in Hk.
    destruct (p k).
    + rewrite dict_set_fresh by auto. rewrite IH; auto.
      * now rewrite <- app_assoc.
      * intros k' Hk'. rewrite map_app, existsb_app. simpl.
        rewrite (Hacc k') by auto. simpl. rewrite orb_false_r.
        destruct (String.eqb_spec k' k) as [ -> | ]; auto.
        assert (existsb (String.eqb k) (map fst d) = true); [ | congruence ].
        apply existsb_exists. exists k. split; auto. apply String.eqb_refl.
    + apply IH; auto.
Qed.

Lemma dict_get_filter (p : string -> bool) (n : string) (d : dict) :
  dict_get n (filter (fun kv => p (fst kv)) d)
  = if p n then dict_get n d else None.
Proof.
  induction d as [ | [k v] d IH ]; simpl.
  - now destruct (p n).
  - destruct (String.eqb_spec n k) as [ -> | Hne ].
    + destruct (p k); simpl; [ now rewrite String.eqb_refl | exact IH ].
    + destruct (p k); simpl; [ | exact IH ].
      destruct (String.eqb_spec n k); [ contradiction | exact IH ].
Qed.

Lemma in_field_list_cond (n : string) (m : Meta) :
  existsb (fun f => String.eqb n (name f) && true) (field_list m)
  = in_field_list n m.
Proof.
  unfold in_field_list. induction (field_list m) as [ | f l IH ]; simpl;
    [ reflexivity | ].
  now rewrite andb_true_r, IH.
Qed.

Lemma updated_fields_get (self : Model) (n : string) :
  dict_get n (updated_fields self)
  = if in_field_list n (_meta self) && in_changed n self
    then Some (getattr self n)
    else None.
Proof.
  unfold updated_fields.
  pose proof (filter_fold_fresh (fun k => in_changed k self)
                (_get_fields self false) (get_fields_keys self false) []
                (fun _ _ => eq_refl)) as F.
  cbv beta in F. rewrite F. clear F. simpl app.
  pose proof (dict_get_filter (fun k => in_changed k self) n
                              (_get_fields self false)) as G.
  cbv beta in G. rewrite G. clear G.
  unfold _get_fields. rewrite get_fields_get. simpl negb. simpl orb.
  rewrite in_field_list_cond. simpl dict_get.
  destruct (in_changed n self), (in_field_list n (_meta self)); reflexivity.
Qed.

(** X11.  [save()] without merge hands the manager every declared field
    under its name with the value the instance now has, and nothing else:
    an undeclared attribute is never sent. *)
Theorem save_sends_declared_fields (self : Model) (n : string) :
  dict_get n (save self VNone)
  = if in_field_list n (_meta self) then Some (getattr self n) else None.
Proof.
  unfold save, _get_fields. simpl truthy.
  rewrite get_fields_get. simpl negb. simpl orb.
  now rewrite in_field_list_cond.
Qed.

End SentFields.

Section SentByUpdate.
Import utils model samples.

Variable new_IDField : Field.

(** What [update] hands over is [updated_fields] of the instance it
    hands over. *)
Lemma update_result (self self' : Model) (key_ : value) (fields : dict) :
  update new_IDField self key_ = Ok (self', fields) ->
  fields = updated_fields self'.
Proof.
  unfold update. cbv beta zeta.
  match goal with
  | |- bind ?X _ = _ -> _ => destruct X as [ s | e ]
  end; cbn [bind]; [ | discriminate ].
  intros H. now injection H as <- <-.
Qed.

Lemma update_without_key (self self' : Model) (key_ : value)
      (fields : dict) :
  update new_IDField self key_ = Ok (self', fields) ->
  truthy key_ = false ->
  getattr self "_update_doc" = VNone ->
  self' = self.
Proof.
  unfold update. intros H T D. rewrite T in H. cbv beta zeta in H.
  rewrite D in H. cbv beta iota delta [is_none negb bind] in H.
  destruct (key self) as [ k | e ]; [ | discriminate ].
  destruct (py_in temp_doc_id k) as [ [ | ] | e ]; try discriminate.
  now injection H as <- _.
Qed.

(** X12.  Whenever [update] hands an instance to the manager, the fields
    it hands over are exactly the declared fields whose name is in the
    change log of the instance as handed over, each with the value that
    instance has; this includes what [update] itself assigned on the way
    when it was given a key.  Without a key and without update-doc key
    the instance is handed over as it came. *)
Theorem update_sends_changed_fields (self self' : Model) (key_ : value)
        (fields : dict) (n : string) (v : value)
        (H : update new_IDField self key_ = Ok (self', fields)) :
  (dict_get n fields = Some v
   <-> in_field_list n (_meta self') = true
       /\ in_changed n self' = true
       /\ getattr self' n = v)
  /\ (truthy key_ = false -> getattr self "_update_doc" = VNone ->
      self' = self).
Proof.
  split; [ | now apply (update_without_key self self' key_ fields) ].
  rewrite (update_result _ _ _ _ H), updated_fields_get.
  destruct (in_field_list n (_meta self')), (in_changed n self'); simpl;
    split; try (intros (? & ? & ?); discriminate); try discriminate.
  - intros E. injection E as <-. auto.
  - intros (_ & _ & <-). reflexivity.
Qed.

(** X13.  Whatever [update] hands to the manager, [upsert] on the
    instance handed over would send too, and whatever [upsert] sends,
    [save] without merge sends too, each time with the same value. *)
Theorem update_upsert_save_nested (self self' : Model) (key_ : value)
        (fields : dict) (n : string) (v : value)
        (H : update new_IDField self key_ = Ok (self', fields)) :
  (dict_get n fields = Some v -> dict_get n (upsert self') = Some v)
  /\ (dict_get n (upsert self') = Some v ->
      dict_get n (save self' VNone) = Some v).
Proof.
  rewrite (update_result _ _ _ _ H). split.
  - rewrite updated_fields_get.
    destruct (in_field_list n (_meta self')) eqn:D; [ | discriminate ].
    destruct (in_changed n self') eqn:C; [ | discriminate ].
    simpl. intros E. unfold upsert, save, _get_fields. simpl truthy.
    rewrite get_fields_get.
    replace (existsb _ (field_list (_meta self'))) with true; [ exact E | ].
    symmetry. apply existsb_exists.
    apply in_field_list_iff in D as (f & Hf & <-).
    exists f. split; [ exact Hf | ].
    now rewrite String.eqb_refl, C.
  - unfold upsert, save, _get_fields. simpl truthy.
    rewrite !get_fields_get. simpl dict_get.
    destruct (existsb _ (field_list (_meta self'))) eqn:E; [ | discriminate ].
    intros G.
    replace (existsb _ (field_list (_meta self'))) with true; [ exact G | ].
    symmetry. apply existsb_exists.
    apply existsb_exists in E as (f & Hf & C).
    apply andb_true_iff in C as [C _].
    exists f. split; [ exact Hf | ]. now rewrite C.
Qed.

End SentByUpdate.

Lemma update_sends_changed_fields_witness :
  exists self' fields,
    model.update (samples.plain_field model.IDField "id") samples.tagged
                 (VStr "tagged/u1") = Ok (self', fields)
    /\ model.in_changed "id" samples.tagged = false
    /\ (dict_get "id" fields = Some (VStr "u1")
        <-> model.in_field_list "id" (model._meta self') = true
            /\ model.in_changed "id" self' = true
            /\ model.getattr self' "id" = VStr "u1").
Proof.
  eexists. eexists. split; [ reflexivity | ].
  split; [ reflexivity | ].
  apply (update_sends_changed_fields
           (samples.plain_field model.IDField "id") samples.tagged _
           (VStr "tagged/u1") _ "id" (VStr "u1") eq_refl).
Defined.

Lemma update_upsert_save_nested_witness :
  exists self' fields,
    model.update (samples.plain_field model.IDField "id") samples.tagged
                 (VStr "tagged/u1") = Ok (self', fields)
    /\ dict_get "id" fields = Some (VStr "u1")
    /\ dict_get "id" (model.upsert self') = Some (VStr "u1").
Proof.
  eexists. eexists. split; [ reflexivity | ].
  split; [ reflexivity | ].
  apply (update_upsert_save_nested
           (samples.plain_field model.IDField "id") samples.tagged _
           (VStr "tagged/u1") _ "id" (VStr "u1") eq_refl).
  reflexivity.
Defined.


(** * The public dictionary and the key *)

Section PublicDict.
Import utils model samples.
Local Open Scope string_scope.

(** X14.  [to_dict] is [to_db_dict()] with two entries written on top:
    it fails as [to_db_dict] fails; otherwise [key] holds the key, the id
    name holds the last segment of the key (unless the id name is [key]
    itself), and every other column is as [to_db_dict] has it. *)
Theorem to_dict_extends_to_db_dict (self : Model) :
  match to_db_dict self false false false with
  | Err e => to_dict self = Err e
  | Ok d =>
      match key self with
      | Err e => to_dict self = Err e
      | Ok k =>
          exists md,
            to_dict self = Ok md
            /\ dict_get "key" md = Some k
            /\ (id_name (_meta self) <> "key" ->
                dict_get (id_name (_meta self)) md = Some (get_id k))
            /\ forall c, c <> "key" -> c <> id_name (_meta self) ->
                         dict_get c md = dict_get c d
      end
  end.
Proof.
  unfold to_dict.
  destruct (to_db_dict self false false false) as [ d | e ];
    [ | reflexivity ].
  cbn [bind]. destruct (key self) as [ k | e ]; [ | reflexivity ].
  cbn [bind]. eexists. split; [ reflexivity | ].
  split; [ apply dict_get_set_same | ].
  split.
  - intros Hn. rewrite dict_get_set_other by exact Hn.
    apply dict_get_set_same.
  - intros c Hk Hi. now rewrite !dict_get_set_other.
Qed.

Lemma contains_slash_ends (x t : string) : isKey (x ++ String slash t) = true.
Proof.
  unfold isKey. induction x as [ | c x IH ]; cbn [append contains].
  - cbn [String.prefix]. destruct (ascii_dec "/" slash) as [ _ | n ];
      [ now destruct t | now elim n ].
  - rewrite IH. apply orb_true_r.
Qed.

(** X15.  While no key is fixed, a key computed from string parent,
    string collection name and a string id is a key in the sense of
    [isKey]; when the id holds no separator, [get_id] reads the id back
    from it. *)
Theorem computed_key_is_key (self : Model) (p c i : string)
        (Hkey : truthy (getattr self "_key") = false)
        (Hp : getattr self "parent" = VStr p)
        (Hc : getattr self "collection_name" = VStr c)
        (Hid : _id self = Ok (VStr i)) :
  exists k,
    key self = Ok (VStr k)
    /\ isKey k = true
    /\ (isKey i = false -> get_id (VStr k) = VStr i).
Proof.
  pose proof (key_unfixed self p c Hkey Hp Hc) as K. rewrite Hid in K.
  destruct (strip_leading_keeps_last p c i) as [x Hx]. rewrite Hx in K.
  exists (x ++ String slash i). split; [ exact K | ].
  split; [ apply contains_slash_ends | ].
  intros Hi. apply get_id_app. now apply isKey_false_split.
Qed.

Lemma computed_key_is_key_witness :
  exists k,
    key (account [("parent", VStr "org/acme"); ("user_id", VStr "u1")])
    = Ok (VStr k)
    /\ isKey k = true
    /\ (isKey "u1" = false -> get_id (VStr k) = VStr "u1").
Proof.
  apply (computed_key_is_key
           (account [("parent", VStr "org/acme"); ("user_id", VStr "u1")])
           "org/acme" "user" "u1"); reflexivity.
Defined.

Lemma set__id_string (self : Model) (d p c : string) :
  d <> "" ->
  getattr self "parent" = VStr p ->
  getattr self "collection_name" = VStr c ->
  is_key_attr (id_name (_meta self)) = false ->
  set__id self (VStr d)
  = Ok (__setattr__ (__setattr__ self (id_name (_meta self)) (VStr d))
                    "_key"
                    (VStr (strip_leading (p ++ "/" ++ c ++ "/" ++ d)))).
Proof.
  intros Hd Hp Hc Hn.
  destruct (is_key_attr_false _ Hn) as (Np & Nc & Nk).
  unfold set__id.
  assert (T : truthy (VStr d) = true).
  { unfold truthy. destruct (String.eqb_spec d "");
      [ contradiction | reflexivity ]. }
  rewrite T. apply set_key_string; rewrite getattr_setattr;
    [ now rewrite Np | now rewrite Nc ].
Qed.

(** X16.  Setting a non-empty id without separator and then asking for
    the public dictionary: when the storage dictionary can be built,
    [to_dict] shows that id under the id name and
    [parent/collection/id] (one leading separator removed) under
    [key]. *)
Theorem to_dict_after_set_id (self self' : Model) (d p c : string)
        (db : dict)
        (Hd : d <> "") (Hplain : isKey d = false)
        (Hp : getattr self "parent" = VStr p)
        (Hc : getattr self "collection_name" = VStr c)
        (Hn : is_key_attr (id_name (_meta self)) = false)
        (Hk : id_name (_meta self) <> "key")
        (Hset : set__id self (VStr d) = Ok self')
        (Hdb : to_db_dict self' false false false = Ok db) :
  exists md,
    to_dict self' = Ok md
    /\ dict_get (id_name (_meta self')) md = Some (VStr d)
    /\ dict_get "key" md
       = Some (VStr (strip_leading (p ++ "/" ++ c ++ "/" ++ d))).
Proof.
  pose proof (set__id_string self d p c Hd Hp Hc Hn) as S.
  destruct (strip_leading_keeps_last p c d) as [x Hx0].
  remember (strip_leading (p ++ "/" ++ c ++ "/" ++ d)) as kk eqn:Ek in *.
  assert (Hx : kk = x ++ String slash d) by (rewrite Ek; exact Hx0).
  clear Ek Hx0. subst kk.
  rewrite S in Hset. injection Hset as <-.
  set (s2 := __setattr__ _ "_key" _) in *.
  assert (K : key s2 = Ok (VStr (x ++ String slash d))).
  { rewrite key_fixed; unfold s2; rewrite getattr_setattr, String.eqb_refl;
      [ reflexivity | apply truthy_ends_with ]. }
  assert (M : id_name (_meta s2) = id_name (_meta self)).
  { unfold s2, __setattr__.
    destruct (in_field_list "_key" _);
      destruct (in_field_list (id_name (_meta self)) (_meta self));
      reflexivity. }
  eexists. split.
  - unfold to_dict. rewrite Hdb, K. cbv beta iota delta [bind]. reflexivity.
  - rewrite M. split.
    + rewrite dict_get_set_other by exact Hk.
      rewrite get_id_app by (now apply isKey_false_split).
      apply dict_get_set_same.
    + apply dict_get_set_same.
Qed.

Lemma to_dict_after_set_id_witness :
  exists md,
    to_dict (__setattr__ (__setattr__ user "id" (VStr "u1"))
                         "_key" (VStr "user/u1")) = Ok md
    /\ dict_get "id" md = Some (VStr "u1")
    /\ dict_get "key" md = Some (VStr "user/u1").
Proof.
  apply (to_dict_after_set_id
           user
           (__setattr__ (__setattr__ user "id" (VStr "u1"))
                        "_key" (VStr "user/u1"))
           "u1" "" "user" []);
    try reflexivity; discriminate.
Defined.

End PublicDict.

(** * Hydration, field by field *)

Section Hydration.
Import utils model samples.

Lemma get_field_by_column_name_some (m : Meta) (k : string) (g : Field) :
  get_field_by_column_name m k = Some g ->
  In g (field_list m) /\ db_column_name g = k.
Proof.
  unfold get_field_by_column_name. intros H.
  apply find_some in H as [Hin E]. split; [ exact Hin | ].
  symmetry. now apply String.eqb_eq.
Qed.

Lemma dict_get_fresh {V : Type} (k : string) (d : list (string * V)) :
  existsb (String.eqb k) (map fst d) = false -> dict_get k d = None.
Proof.
  induction d as [ | [k' v'] d IH ]; simpl; [ reflexivity | ].
  intros H. apply orb_false_iff in H as [-> H]. auto.
Qed.

Lemma populate_meta (doc : dict) :
  forall self self',
    populate_from_doc_dict self doc = Ok self' ->
    _meta self' = _meta self /\ _field_changed self' = _field_changed self.
Proof.
  induction doc as [ | [k v] doc IH ]; simpl; intros self self' H.
  - injection H as <-. auto.
  - destruct (get_field_by_column_name (_meta self) k) as [ g | ];
      [ | now apply IH ].
    destruct (field_value g v) as [ val | e ]; [ | discriminate ].
    cbn [bind] in H. apply IH in H as [H1 H2]. now rewrite H1, H2.
Qed.

(** An attribute is left alone when no declared field of that name has
    its column in the document. *)
Lemma populate_untouched (n : string) (doc : dict) :
  forall self self',
    populate_from_doc_dict self doc = Ok self' ->
    (forall g, In g (field_list (_meta self)) -> name g = n ->
               dict_get (db_column_name g) doc = None) ->
    getattr self' n = getattr self n.
Proof.
  induction doc as [ | [k v] doc IH ]; simpl; intros self self' H Hn.
  - now injection H as <-.
  - assert (Hrest : forall g, In g (field_list (_meta self)) -> name g = n ->
                      String.eqb (db_column_name g) k = false
                      /\ dict_get (db_column_name g) doc = None).
    { intros g Hg E. specialize (Hn g Hg E).
      destruct (String.eqb (db_column_name g) k); [ discriminate | auto ]. }
    destruct (get_field_by_column_name (_meta self) k) as [ g0 | ] eqn:L.
    + destruct (field_value g0 v) as [ val | e ]; [ | discriminate ].
      cbn [bind] in H.
      apply get_field_by_column_name_some in L as [Hg0 E0].
      rewrite (IH _ _ H); [ | intros g Hg E; now apply Hrest ].
      rewrite getattr_set_orig_attr.
      destruct (String.eqb_spec n (name g0)) as [ E | _ ]; [ | reflexivity ].
      destruct (Hrest g0 Hg0 (eq_sym E)) as [Hk _].
      rewrite E0, String.eqb_refl in Hk. discriminate.
    + apply (IH _ _ H). intros g Hg E. now apply Hrest.
Qed.

(** X17.  Hydration field by field, in a registry with distinct names and
    columns and a document with distinct keys, once it completes: a field
    whose column is in the document holds that entry converted by its
    [field_value]; every other attribute, declared or not, is what it was
    before; entries under unknown columns are passed over. *)
Theorem populate_sets_declared_fields (self self' : Model) (doc : dict)
        (Hcols : NoDup (map db_column_name (field_list (_meta self))))
        (Hnames : NoDup (map name (field_list (_meta self))))
        (Hdoc : nodup_keys (map fst doc) = true)
        (H : populate_from_doc_dict self doc = Ok self') :
  (forall f, In f (field_list (_meta self)) ->
     match dict_get (db_column_name f) doc with
     | Some v => field_value f v = Ok (getattr self' (name f))
     | None => getattr self' (name f) = getattr self (name f)
     end)
  /\ (forall n, in_field_list n (_meta self) = false ->
                getattr self' n = getattr self n).
Proof.
  split.
  - intros f Hf.
    destruct (dict_get (db_column_name f) doc) as [ v | ] eqn:G.
    + revert self self' Hcols Hnames Hdoc H Hf G.
      induction doc as [ | [k v0] doc IH ]; [ discriminate | ].
      simpl. intros self self' Hcols Hnames Hdoc H Hf G.
      apply andb_true_iff in Hdoc as [Hk Hdoc]. apply negb_true_iff in Hk.
      destruct (String.eqb_spec (db_column_name f) k) as [ <- | Hne ].
      * injection G as ->.
        rewrite (get_field_by_column_name_found _ f Hcols Hf) in H.
        destruct (field_value f v) as [ val | e ]; [ | discriminate ].
        cbn [bind] in H. f_equal.
        rewrite (populate_untouched (name f) _ _ _ H).
        -- now rewrite getattr_set_orig_attr, String.eqb_refl.
        -- simpl. intros g Hg E.
           assert (g = f) as ->
               by (apply (NoDup_map_inj name (field_list (_meta self)));
                   auto).
           now apply dict_get_fresh.
      * destruct (get_field_by_column_name (_meta self) k) as [ g0 | ].
        -- destruct (field_value g0 v0) as [ val | e ]; [ | discriminate ].
           cbn [bind] in H.
           apply (IH (_set_orig_attr self (name g0) val) self'
                     Hcols Hnames Hdoc H Hf G).
        -- apply (IH self self' Hcols Hnames Hdoc H Hf G).
    + apply (populate_untouched _ _ _ _ H).
      intros g Hg E.
      assert (g = f) as ->
          by (apply (NoDup_map_inj name (field_list (_meta self))); auto).
      exact G.
  - intros n Hn. apply (populate_untouched _ _ _ _ H).
    intros g Hg E. exfalso.
    assert (in_field_list n (_meta self) = true); [ | congruence ].
    apply in_field_list_iff. now exists g.
Qed.

Lemma populate_sets_declared_fields_witness :
  exists self',
    populate_from_doc_dict user [("name", VStr "y"); ("age", VInt 3)]
    = Ok self'
    /\ getattr self' "age" = getattr user "age".
Proof.
  eexists. split; [ reflexivity | ].
  apply (populate_sets_declared_fields
           user _ [("name", VStr "y"); ("age", VInt 3)]);
    try reflexivity;
    repeat constructor; simpl; intuition discriminate.
Defined.

End Hydration.

(** * Construction *)

Section Construction.
Import utils model samples.

Lemma setattr_keeps_meta (self : Model) (n : string) (v : value) :
  _meta (__setattr__ self n v) = _meta self.
Proof.
  unfold __setattr__. destruct (in_field_list n (_meta self)); reflexivity.
Qed.

Lemma init_kwargs (kwargs : dict) :
  forall s,
    _meta (fold_left (fun s kv => __setattr__ s (fst kv) (snd kv)) kwargs s)
    = _meta s
    /\ _field_changed
         (fold_left (fun s kv => __setattr__ s (fst kv) (snd kv)) kwargs s)
       = _field_changed s
         ++ filter (fun k => in_field_list k (_meta s)) (map fst kwargs).
Proof.
  induction kwargs as [ | [k v] kwargs IH ]; simpl; intros s.
  - now rewrite app_nil_r.
  - destruct (IH (__setattr__ s k v)) as [IH1 IH2].
    rewrite IH1, IH2, setattr_keeps_meta, field_changed_setattr.
    split; [ reflexivity | ].
    destruct (in_field_list k (_meta s)); [ | reflexivity ].
    now rewrite <- app_assoc.
Qed.

(** Keywords that name ordinary attributes are stored one by one. *)
Lemma setattr_each_ordinary (kwargs : dict) :
  Forall (fun kv => ordinary_attr (fst kv) = true) kwargs ->
  forall s,
    setattr_each s kwargs
    = Some (Ok (fold_left (fun s kv => __setattr__ s (fst kv) (snd kv))
                          kwargs s)).
Proof.
  induction 1 as [ | [k v] kwargs Hk Hrest IH ]; simpl; intros s;
    [ reflexivity | ].
  rewrite (setattr_ordinary s k v Hk). simpl. apply IH.
Qed.

(** One turn of the loop over the nested model fields. *)
Lemma init_nested_cons (self : Model) (kwargs : dict) (f : Field)
      (rest : list Field) :
  init_nested self kwargs (f :: rest)
  = match nested_default kwargs f with
    | None => init_nested self kwargs rest
    | Some (Err e) => Some (Err e)
    | Some (Ok v) =>
        and_then (setattr self (name f) v)
                 (fun self => init_nested self kwargs rest)
    end.
Proof.
  unfold nested_default. simpl.
  destruct (kind f) as [ | | | nested_model nested_from_dict ];
    try reflexivity.
  destruct (dict_get (name f) kwargs) as [ [ ] | ]; reflexivity.
Qed.

Lemma init_nested_succeeds (kwargs : dict) (fields : list Field) :
  (forall f, In f fields ->
     match nested_default kwargs f with
     | Some (Ok _) => ordinary_attr (name f) = true
     | Some (Err _) => False
     | None => True
     end) ->
  forall s, exists s1, init_nested s kwargs fields = Some (Ok s1).
Proof.
  induction fields as [ | f rest IH ]; intros Hf s.
  - now exists s.
  - rewrite init_nested_cons.
    pose proof (Hf f (or_introl eq_refl)) as Hd.
    assert (Hrest : forall g, In g rest ->
              match nested_default kwargs g with
              | Some (Ok _) => ordinary_attr (name g) = true
              | Some (Err _) => False
              | None => True
              end) by (intros g Hg; apply Hf; now right).
    destruct (nested_default kwargs f) as [ [ v | e ] | ];
      [ | contradiction | now apply IH ].
    rewrite (setattr_ordinary s (name f) v Hd). simpl. now apply IH.
Qed.

(** What the loop has done when it completes. *)
Lemma init_nested_done (kwargs : dict) (fields : list Field) :
  (forall f, In f fields -> nested_default kwargs f <> None ->
             ordinary_attr (name f) = true) ->
  forall s s1,
    (forall f, In f fields -> in_field_list (name f) (_meta s) = true) ->
    init_nested s kwargs fields = Some (Ok s1) ->
    _meta s1 = _meta s
    /\ _field_changed s1
       = _field_changed s
         ++ map name
              (filter (fun f => match nested_default kwargs f with
                                | Some _ => true
                                | None => false
                                end)
                      fields)
    /\ (forall n, (forall g, In g fields -> name g <> n) ->
                  getattr s1 n = getattr s n)
    /\ (NoDup (map name fields) ->
        forall f v, In f fields -> nested_default kwargs f = Some (Ok v) ->
                    getattr s1 (name f) = v).
Proof.
  induction fields as [ | f rest IH ]; intros Hord s s1 Hdecl H.
  - simpl in H. injection H as <-. simpl. rewrite app_nil_r.
    repeat split; auto. intros _ f v [].
  - rewrite init_nested_cons in H.
    assert (Hord' : forall g, In g rest -> nested_default kwargs g <> None ->
                               ordinary_attr (name g) = true)
      by (intros g Hg; apply Hord; now right).
    cbn [filter].
    destruct (nested_default kwargs f) as [ [ v | e ] | ] eqn:D;
      [ | discriminate | ].
    + rewrite (setattr_ordinary s (name f) v) in H
        by (apply Hord; [ now left | congruence ]).
      simpl in H.
      destruct (IH Hord' (__setattr__ s (name f) v) s1) as (M & L & U & G);
        [ intros g Hg; rewrite setattr_keeps_meta; apply Hdecl; now right
        | exact H | ].
      rewrite setattr_keeps_meta in M.
      rewrite field_changed_setattr, (Hdecl f (or_introl eq_refl)) in L.
      split; [ exact M | ].
      split; [ rewrite L; simpl; now rewrite <- app_assoc | ].
      split.
      * intros n Hn. rewrite U by (intros g Hg; apply Hn; now right).
        rewrite getattr_setattr.
        destruct (String.eqb_spec n (name f)) as [ E | _ ];
          [ | reflexivity ].
        exfalso. apply (Hn f); [ now left | now symmetry ].
      * intros Hnd g w Hg Hw. inversion Hnd as [ | ? ? Hnf Hrest ]; subst.
        destruct Hg as [ <- | Hg ].
        -- rewrite D in Hw. injection Hw as <-.
           rewrite U.
           ++ now rewrite getattr_setattr, String.eqb_refl.
           ++ intros g Hg E. apply Hnf. rewrite <- E. now apply in_map.
        -- now apply (G Hrest g w).
    + destruct (IH Hord' s s1) as (M & L & U & G);
        [ intros g Hg; apply Hdecl; now right | exact H | ].
      split; [ exact M | ]. split; [ exact L | ].
      split.
      * intros n Hn. apply U. intros g Hg. apply Hn. now right.
      * intros Hnd g w Hg Hw. inversion Hnd as [ | ? ? Hnf Hrest ]; subst.
        destruct Hg as [ <- | Hg ]; [ congruence | ].
        now apply (G Hrest g w).
Qed.

(** X18.  Construction of a model that is not abstract and does not
    declare a field named [_field_changed], from keywords that name
    ordinary attributes, succeeds when the nested models it has to build
    are built without error and go to ordinary attributes.  The change
    log of the new instance lists the keywords that name declared fields,
    in keyword order, followed by the nested model fields the constructor
    filled in itself, in registry order; with distinct field names, each
    of these nested fields holds what the constructor built for it.  The
    keyword [key] makes construction raise [AttributeError]. *)
Theorem init_change_log (cname : string) (cn : value) (m : Meta)
        (kwargs : dict)
        (Habs : abstract m = false)
        (Hlog : in_field_list "_field_changed" m = false)
        (Hkw : Forall (fun kv => ordinary_attr (fst kv) = true) kwargs)
        (Hnested : forall f, In f (field_list m) ->
                     match nested_default kwargs f with
                     | Some (Ok _) => ordinary_attr (name f) = true
                     | Some (Err _) => False
                     | None => True
                     end)
        (Hnames : NoDup (map name (field_list m))) :
  (exists self,
     __init__ cname cn m kwargs = Some (Ok self)
     /\ _meta self = m
     /\ _field_changed self
        = filter (fun k => in_field_list k m) (map fst kwargs)
          ++ map name
               (filter (fun f => match nested_default kwargs f with
                                 | Some _ => true
                                 | None => false
                                 end)
                       (field_list m))
     /\ forall f v, In f (field_list m) ->
                    nested_default kwargs f = Some (Ok v) ->
                    getattr self (name f) = v)
  /\ forall v rest,
      __init__ cname cn m (("key", v) :: rest) = Some (Err AttributeError).
Proof.
  split.
  - unfold __init__. rewrite Habs, Hlog.
    set (s0 := {| class_name := cname; cls_collection_name := cn;
                  _meta := m; attrs := []; _field_changed := [] |}).
    rewrite (setattr_each_ordinary kwargs Hkw s0). cbn [and_then].
    destruct (init_kwargs kwargs s0) as [K1 K2].
    set (s1 := fold_left _ kwargs s0) in *.
    destruct (init_nested_succeeds kwargs (field_list m) Hnested s1)
      as [s2 E].
    destruct (init_nested_done kwargs (field_list m)) with (s := s1) (s1 := s2)
      as (M & L & _ & G).
    + intros f Hf Hd. specialize (Hnested f Hf).
      destruct (nested_default kwargs f) as [ [ v | e ] | ];
        [ exact Hnested | contradiction | congruence ].
    + intros f Hf. rewrite K1. apply in_field_list_iff. now exists f.
    + exact E.
    + exists s2. split; [ exact E | ].
      split; [ now rewrite M, K1 | ].
      split; [ now rewrite L, K2 | ].
      intros f v Hf Hv. now apply (G Hnames f v).
  - intros v rest. unfold __init__. rewrite Habs, Hlog. reflexivity.
Qed.

Lemma init_change_log_witness :
  exists self,
    __init__ "Profile" (VStr "profile") profile_meta [("nick", VStr "n")]
    = Some (Ok self)
    /\ _field_changed self = ["nick"; "address"]
    /\ getattr self "address" = VObj 0.
Proof.
  destruct (init_change_log "Profile" (VStr "profile") profile_meta
                            [("nick", VStr "n")])
    as ((self & E & _ & L & G) & _).
  - reflexivity.
  - reflexivity.
  - repeat constructor.
  - intros f [ <- | [ <- | [] ] ]; reflexivity.
  - repeat constructor; simpl; intuition discriminate.
  - exists self. split; [ exact E | ]. split; [ exact L | ].
    apply (G (plain_field (NestedModelField (Ok (VObj 0))
                                            (fun _ => Ok (VObj 1)))
                          "address"));
      [ right; now left | reflexivity ].
Defined.

(** X19.  [from_dict(None)] is [None] for every model class, abstract or
    not, and builds nothing.  An instance that [from_dict] returns for a
    dictionary belongs to a model that is not abstract and, the nested
    model fields being ordinary attributes, has exactly the nested model
    field names in its change log, whatever the dictionary holds:
    nothing that was hydrated counts as changed. *)
Theorem from_dict_change_log (cname : string) (cn : value) (m : Meta) :
  from_dict cname cn m VNone = Some (Ok None)
  /\ forall d instance,
      Forall (fun n => ordinary_attr n = true) (nested_field_names m) ->
      from_dict cname cn m (VDict d) = Some (Ok (Some instance)) ->
      abstract m = false
      /\ _meta instance = m
      /\ _field_changed instance = nested_field_names m.
Proof.
  split; [ reflexivity | ].
  intros d instance Hord H.
  unfold from_dict, __init__ in H.
  destruct (abstract m); [ discriminate | ].
  destruct (in_field_list "_field_changed" m); [ discriminate | ].
  split; [ reflexivity | ].
  cbn [setattr_each and_then] in H.
  set (s0 := {| class_name := cname; cls_collection_name := cn;
                _meta := m; attrs := []; _field_changed := [] |}) in *.
  destruct (init_nested s0 [] (field_list m)) as [ [ s1 | e ] | ] eqn:N;
    try discriminate.
  cbn [and_then] in H.
  destruct (populate_from_doc_dict s1 d) as [ r | e ] eqn:P;
    [ | discriminate ].
  cbn [bind] in H. injection H as <-.
  apply populate_meta in P as [P1 P2].
  destruct (init_nested_done [] (field_list m)) with (s := s0) (s1 := s1)
    as (M & L & _ & _).
  - intros f Hf Hd. rewrite Forall_forall in Hord. apply Hord.
    unfold nested_field_names. apply in_map. apply filter_In.
    split; [ exact Hf | ].
    unfold nested_default in Hd. destruct (kind f); congruence.
  - intros f Hf. apply in_field_list_iff. now exists f.
  - exact N.
  - rewrite P1, P2, M, L. split; [ reflexivity | ].
    unfold nested_field_names. simpl. f_equal.
    apply filter_ext. intros f. unfold nested_default.
    destruct (kind f); reflexivity.
Qed.

Lemma from_dict_change_log_witness :
  exists instance,
    from_dict "Profile" (VStr "profile") profile_meta
              (VDict [("nick", VStr "n")]) = Some (Ok (Some instance))
    /\ _field_changed instance = ["address"].
Proof.
  eexists. split; [ reflexivity | ].
  destruct (from_dict_change_log "Profile" (VStr "profile") profile_meta)
    as [_ F].
  apply (F [("nick", VStr "n")]); [ repeat constructor | reflexivity ].
Defined.

End Construction.

(** * [update] by key *)

Section UpdateByKey.
Import utils model samples.
Local Open Scope string_scope.
Variable new_IDField : Field.






End UpdateByKey.



(** * More on the storage dictionary and on cleaning *)

Section StorageDict.
Import utils model samples.

Lemma to_db_dict_loop_values (self : Model) (a b c : bool)
      (fields : list Field) :
  ignore_none_field (_meta self) = true ->
  forall acc d,
    Forall (fun kv => is_none (snd kv) = false) acc ->
    to_db_dict_loop self a b c fields acc = Ok d ->
    Forall (fun kv => is_none (snd kv) = false) d.
Proof.
  intros Hi. induction fields as [ | f rest IH ]; simpl; intros acc d Hacc H.
  - now injection H as <-.
  - destruct (c && negb (in_changed (name f) self)); [ now apply (IH acc) | ].
    destruct (get_value f (getattr self (name f)) a b c) as [ v | e ];
      [ | discriminate ].
    rewrite Hi in H. simpl negb in H. rewrite orb_false_r in H.
    destruct (is_none v) eqn:Ev; simpl in H; [ now apply (IH acc) | ].
    apply (IH _ _ (dict_set_Forall
                     (fun kv : string * value => is_none (snd kv) = false)
                     _ _ _ (fun _ => Ev) Hacc) H).
Qed.

Lemma to_db_dict_loop_keys (self : Model) (a b c : bool)
      (fields : list Field) :
  forall acc d,
    nodup_keys (map fst acc) = true ->
    to_db_dict_loop self a b c fields acc = Ok d ->
    nodup_keys (map fst d) = true.
Proof.
  induction fields as [ | f rest IH ]; simpl; intros acc d Hacc H.
  - now injection H as <-.
  - destruct (c && negb (in_changed (name f) self)); [ now apply (IH acc) | ].
    destruct (get_value f (getattr self (name f)) a b c) as [ v | e ];
      [ | discriminate ].
    destruct (negb (is_none v) || negb (ignore_none_field (_meta self)));
      [ | now apply (IH acc) ].
    apply (IH _ _ (proj1 (nodup_keys_set _ v _ Hacc)) H).
Qed.

(** X22.  A storage dictionary built by [to_db_dict] has each column
    once, every entry is the column of a declared field with that field's
    coerced value, and on a model that ignores null fields it holds no
    null value at all. *)
Theorem to_db_dict_entries (self : Model) (a b c : bool) (d : dict)
        (H : to_db_dict self a b c = Ok d) :
  nodup_keys (map fst d) = true
  /\ (forall k v, In (k, v) d ->
        exists f, In f (field_list (_meta self))
                  /\ db_column_name f = k
                  /\ get_value f (getattr self (name f)) a b c = Ok v)
  /\ (ignore_none_field (_meta self) = true ->
      Forall (fun kv => is_none (snd kv) = false) d).
Proof.
  unfold to_db_dict in H. split; [ | split ].
  - apply (to_db_dict_loop_keys self a b c (field_list (_meta self)) [] d);
      [ reflexivity | exact H ].
  - intros k v Hin.
    destruct (to_db_dict_loop_entries _ _ _ _ _ _ _ H _ _ Hin)
      as [ [] | R ]; exact R.
  - intros Hi.
    apply (to_db_dict_loop_values self a b c (field_list (_meta self)) Hi
                                  [] d); [ constructor | exact H ].
Qed.

Lemma to_db_dict_entries_witness :
  to_db_dict user_loaded false false false
  = Ok [("prefs", VDict [("theme", VStr "dark")])]
  /\ Forall (fun kv => is_none (snd kv) = false)
            [("prefs", VDict [("theme", VStr "dark")])].
Proof.
  split; [ reflexivity | ].
  apply (to_db_dict_entries user_loaded false false false);
    reflexivity.
Defined.

Lemma remove_none_field_wf (v : value) :
  wf_value (remove_none_field v) = true.
Proof.
  induction v as [ | b | z | s | l IH | d IH | n ] using value_ind';
    try reflexivity.
  - simpl. apply forallb_forall. intros y Hy.
    apply in_map_iff in Hy as (x & <- & Hx).
    rewrite Forall_forall in IH. now apply IH.
  - rewrite remove_none_field_dict. simpl.
    assert (A : nodup_keys (map fst (@nil (string * value))) = true
                /\ Forall (fun kv => wf_value (snd kv) = true)
                          (@nil (string * value)))
      by (split; [ reflexivity | constructor ]).
    revert A. generalize (@nil (string * value)).
    induction IH as [ | [k x] d Hx Hd IHd ]; simpl; intros acc [A1 A2].
    + rewrite A1. simpl. apply forallb_forall.
      now apply Forall_forall.
    + apply IHd. destruct (is_none x); [ now split | ].
      split; [ now apply nodup_keys_set | ].
      apply (dict_set_Forall
               (fun kv : string * value => wf_value (snd kv) = true));
        auto.
Qed.

Lemma strip_none_keys_fixed (v : value) :
  no_none_field v = true -> strip_none_keys v = v.
Proof.
  induction v as [ | b | z | s | l IH | d IH | n ] using value_ind';
    try reflexivity.
  - simpl. intros H. f_equal. rewrite <- (map_id l) at 2.
    apply map_ext_in. intros x Hx. rewrite Forall_forall in IH.
    apply IH; auto. rewrite forallb_forall in H. now apply H.
  - simpl. intros H. f_equal.
    induction IH as [ | [k x] d Hx Hd IHd ]; simpl; [ reflexivity | ].
    simpl in H. apply andb_true_iff in H as [H1 H2].
    apply andb_true_iff in H1 as [N1 N2]. apply negb_true_iff in N1.
    simpl in *. rewrite N1. simpl. rewrite (Hx N2). f_equal. now apply IHd.
Qed.

(** X23.  Cleaning is idempotent: [remove_none_field] applied to its own
    result gives that result, for every value. *)
Theorem remove_none_field_idempotent (v : value) :
  remove_none_field (remove_none_field v) = remove_none_field v.
Proof.
  rewrite (remove_none_field_strip (remove_none_field v))
    by apply remove_none_field_wf.
  apply strip_none_keys_fixed. apply remove_none_field_no_none.
Qed.

Local Open Scope string_scope.

(** X24.  A model whose class has no collection name (the attribute is
    [None]) has no key: while no key is fixed, [key] raises, a
    [TypeError] unless the id field's own error comes first; and setting
    a non-empty id raises [TypeError]. *)
Theorem key_needs_collection_name (self : Model) (doc_id : string)
        (Hkey : truthy (getattr self "_key") = false)
        (Hc : getattr self "collection_name" = VNone)
        (Hn : is_key_attr (id_name (_meta self)) = false)
        (Hd : doc_id <> "") :
  (exists e, key self = Err e /\ (e = TypeError \/ _id self = Err e))
  /\ set__id self (VStr doc_id) = Err TypeError.
Proof.
  split.
  - unfold key. rewrite Hkey, Hc.
    destruct (_id self) as [ i | e ]; cbn [bind].
    + exists TypeError. split; [ | now left ].
      unfold join_values. cbn [strings_of bind].
      destruct (getattr self "parent"); reflexivity.
    + destruct e;
        try (eexists; split; [ reflexivity | now right ]).
      exists TypeError. split; [ | now left ].
      unfold join_values. cbn [strings_of bind].
      destruct (getattr self "parent"); reflexivity.
  - destruct (is_key_attr_false _ Hn) as (Np & Nc & Nk).
    unfold set__id.
    assert (T : truthy (VStr doc_id) = true).
    { unfold truthy. destruct (String.eqb_spec doc_id "");
        [ contradiction | reflexivity ]. }
    rewrite T. unfold _set_key, join_values.
    rewrite !getattr_setattr, Np, Nc, Hc. cbn [strings_of bind].
    now destruct (getattr self "parent").
Qed.

Lemma key_needs_collection_name_witness :
  key nameless = Err TypeError
  /\ set__id nameless (VStr "u1") = Err TypeError.
Proof.
  split; [ reflexivity | ].
  apply (key_needs_collection_name nameless "u1");
    try reflexivity; discriminate.
Defined.

End StorageDict.
